(** * PE Rich (linker) header parser: a shallow embedding of
    [perichheaderparser.py] and the properties of its decoder.

    The file object is modelled by its contents (a list of bytes) and a
    current position; [seek] and [read] act on the position, and
    [struct.unpack] raises [struct_error] on a short buffer.  Python
    integers are [Z]; masking with [0xFFFFFFFF] is written out. *)

From Stdlib Require Import String Ascii ZArith List Lia Bool Permutation.
From Stdlib Require Import DecimalString DecimalPos DecimalZ.
From Stdlib.Strings Require Import Byte.
Import ListNotations.
Local Open Scope Z_scope.

(** ** Exceptions *)

(** [InvalidHeaderError] is the module's own exception; [struct_error] is
    the exception [struct.unpack] raises when its buffer is not 4 bytes
    long.  Neither is a subclass of the other. *)
Inductive exn : Type :=
| InvalidHeaderError (err_msg : string)
| struct_error.

(** ** Bytes *)

Definition byte_val (x : byte) : Z := Z.of_N (Byte.to_N x).

(** [data.find(sub)]: index of the first occurrence, or [-1]. *)
Fixpoint is_prefix (sub hay : list byte) : bool :=
  match sub, hay with
  | [], _ => true
  | _ :: _, [] => false
  | x :: sub', y :: hay' => Byte.eqb x y && is_prefix sub' hay'
  end.

Fixpoint find_from (sub hay : list byte) (i : Z) : Z :=
  if is_prefix sub hay then i
  else match hay with
       | [] => -1
       | _ :: hay' => find_from sub hay' (i + 1)
       end.

Definition bytes_find (hay sub : list byte) : Z := find_from sub hay 0.

(** [b'Rich'] *)
Definition Rich : list byte := [x52; x69; x63; x68].

(** [struct.unpack('<I', buf)[0]] *)
Definition unpack_I (buf : list byte) : exn + Z :=
  match buf with
  | [b0; b1; b2; b3] =>
      inr (byte_val b0 + byte_val b1 * 2 ^ 8
           + byte_val b2 * 2 ^ 16 + byte_val b3 * 2 ^ 24)
  | _ => inl struct_error
  end.

(** [range(n)] and [enumerate(l)] *)
Definition range (n : Z) : list Z := map Z.of_nat (seq 0 (Z.to_nat n)).

Fixpoint enumerate_from {A : Type} (i : Z) (l : list A) : list (Z * A) :=
  match l with
  | [] => []
  | x :: l' => (i, x) :: enumerate_from (i + 1) l'
  end.

Definition enumerate {A : Type} (l : list A) : list (Z * A) :=
  enumerate_from 0 l.

(** ** The file object: a state-and-exception monad over the position *)

Module FileObj.

Definition t (A : Type) : Type := list byte -> Z -> exn + (A * Z).

Definition ret {A} (a : A) : t A := fun _ pos => inr (a, pos).

Definition bind {A B} (m : t A) (k : A -> t B) : t B :=
  fun f pos =>
    match m f pos with
    | inl e => inl e
    | inr (a, pos') => k a f pos'
    end.

Definition raise {A} (e : exn) : t A := fun _ _ => inl e.

(** [file_obj.seek(offset)] *)
Definition seek (offset : Z) : t unit := fun _ _ => inr (tt, offset).

(** [file_obj.read(n)]: at most [n] bytes from the current position. *)
Definition read (n : Z) : t (list byte) :=
  fun f pos =>
    let chunk := firstn (Z.to_nat n) (skipn (Z.to_nat pos) f) in
    inr (chunk, pos + Z.of_nat (length chunk)).

(** Lifting of a pure fallible computation. *)
Definition lift {A} (r : exn + A) : t A :=
  fun _ pos => match r with inl e => inl e | inr a => inr (a, pos) end.

End FileObj.

Declare Scope file_scope.
Delimit Scope file_scope with file.
Notation "x <- m ;; k" := (FileObj.bind m (fun x => k))
  (at level 61, m at next level, right associativity) : file_scope.
Notation "m ;; k" := (FileObj.bind m (fun _ => k))
  (at level 61, right associativity) : file_scope.
Local Open Scope file_scope.

(** ** OrderedDict keyed by integers *)

Record entry : Type := mk_entry { build_version : Z; used_count : Z }.

Definition entry_eqb (v w : entry) : bool :=
  (build_version v =? build_version w) && (used_count v =? used_count w).

(** Items in insertion order. *)
Definition OrderedDict : Type := list (Z * entry).

(** [d[k] = v]: an existing key keeps its place and takes the new value,
    a new key goes to the end. *)
Fixpoint od_set (d : OrderedDict) (k : Z) (v : entry) : OrderedDict :=
  match d with
  | [] => [(k, v)]
  | (k', v') :: d' =>
      if k' =? k then (k, v) :: d' else (k', v') :: od_set d' k v
  end.

(** [d.get(k)] *)
Fixpoint od_get (d : OrderedDict) (k : Z) : option entry :=
  match d with
  | [] => None
  | (k', v') :: d' => if k' =? k then Some v' else od_get d' k
  end.

(** [k in d] *)
Definition od_mem (d : OrderedDict) (k : Z) : bool :=
  match od_get d k with Some _ => true | None => false end.

Definition od_keys (d : OrderedDict) : list Z := map fst d.

(** ** The parser *)

(** Little-endian encoding of ASCII "DanS". *)
Definition DanS : Z := 0x536E6144.

(** [_read_dword(file_obj)] *)
Definition _read_dword : FileObj.t Z :=
  buf <- FileObj.read 4 ;;
  FileObj.lift (unpack_I buf).

(** Lines 70-74: the brute-force loop.  The result is the value of
    [start_of_header] after the loop, [0x0] when no word matched. *)
Fixpoint scan_dans (header_checksum : Z) (idx : list Z) : FileObj.t Z :=
  match idx with
  | [] => FileObj.ret 0x0
  | i :: idx' =>
      w <- _read_dword ;;
      let dans_header := Z.lxor w header_checksum in
      if dans_header =? DanS then FileObj.ret (0x40 + i * 4)
      else scan_dans header_checksum idx'
  end.

(** Lines 80-91: one iteration of the byte loop.  The [try] branch
    (Python 3, [item] an int) and the [except TypeError] branch (Python 2,
    [item = ord(item)]) evaluate the same expression on the byte value. *)
Definition byte_step (checksum : Z) (ix : Z * byte) : Z :=
  let '(i, x) := ix in
  if (0x3c <=? i) && (i <? 0x40) then checksum
  else
    let item := byte_val x in
    let checksum :=
      checksum + Z.lor (Z.shiftl item (i mod 32))
                       (Z.land (Z.shiftr item (32 - i mod 32)) 0xff) in
    Z.land checksum 0xFFFFFFFF.

Definition byte_loop (data : list byte) (checksum : Z) : Z :=
  fold_left byte_step (enumerate data) checksum.

(** Lines 99-108: the entry loop, on the pair (checksum, entries). *)
Fixpoint entry_loop (header_checksum : Z) (idx : list Z)
    (st : Z * OrderedDict) : FileObj.t (Z * OrderedDict) :=
  match idx with
  | [] => FileObj.ret st
  | _ :: idx' =>
      w1 <- _read_dword ;;
      let current_dword := Z.lxor w1 header_checksum in
      let c_id := Z.shiftr current_dword 16 in
      let build_version := Z.land current_dword 0xFFFF in
      w2 <- _read_dword ;;
      let used_count := Z.lxor w2 header_checksum in
      let checksum :=
        fst st + Z.lor (Z.shiftl current_dword (used_count mod 32))
                       (Z.shiftr current_dword (32 - used_count mod 32)) in
      let checksum := Z.land checksum 0xFFFFFFFF in
      let entries := od_set (snd st) c_id (mk_entry build_version used_count) in
      entry_loop header_checksum idx' (checksum, entries)
  end.

(** What lines 48-76 establish. *)
Record header : Type := mk_header {
  lfa_new : Z;
  data : list byte;
  rich_location : Z;
  header_checksum : Z;
  start_of_header : Z
}.

(** Lines 48-76: locate "Rich", the stored checksum and "DanS". *)
Definition find_header : FileObj.t header :=
  FileObj.seek 0x3C ;;
  w <- _read_dword ;;
  let lfa_new := Z.land w 0xFFFF in
  FileObj.seek 0 ;;
  data <- FileObj.read lfa_new ;;
  let rich_location := bytes_find data Rich in
  if rich_location =? -1 then
    FileObj.raise (InvalidHeaderError "Rich header does not exist")
  else
    FileObj.seek (rich_location + 0x4) ;;
    header_checksum <- _read_dword ;;
    let start_of_header := 0x80 in
    FileObj.seek start_of_header ;;
    w80 <- _read_dword ;;
    let dans_header := Z.lxor w80 header_checksum in
    start_of_header <-
      (if negb (dans_header =? DanS) then
         FileObj.seek 0x40 ;;
         let search_range := lfa_new - 0x40 in
         scan_dans header_checksum (range (search_range / 0x4))
       else FileObj.ret start_of_header) ;;
    if start_of_header =? 0 then
      FileObj.raise (InvalidHeaderError "Could not find start of Rich header")
    else
      FileObj.ret (mk_header lfa_new data rich_location header_checksum
                             start_of_header).

(** The values [_parse] holds when it returns. *)
Record locals : Type := mk_locals {
  hdr : header;
  byte_checksum : Z;          (* [checksum] after the byte loop, line 92 *)
  total_elements : Z;
  checksum : Z;               (* [checksum] after the entry loop *)
  self_entries : OrderedDict;
  self_checksum_matches : bool
}.

(** Lines 77-109. *)
Definition parse_body (h : header) : FileObj.t locals :=
  let checksum := start_of_header h in
  let data := firstn (Z.to_nat (start_of_header h)) (data h) in
  let checksum := byte_loop data checksum in
  FileObj.seek (start_of_header h) ;;
  let total_elements := (rich_location h - start_of_header h - 0x10) / 0x8 in
  FileObj.seek (start_of_header h + 0x10) ;;
  st <- entry_loop (header_checksum h) (range total_elements) (checksum, []) ;;
  let checksum_matches := fst st =? header_checksum h in
  FileObj.ret (mk_locals h checksum total_elements (fst st) (snd st)
                         checksum_matches).

(** [_parse]: lines 48-76, then lines 77-109. *)
Definition _parse : FileObj.t locals :=
  h <- find_header ;;
  parse_body h.

(** The constructed object: [__init__] runs [_parse] on the opened file
    and an exception leaves no object behind.  [filename] is not part of
    the decoded value and is left out. *)
Record PERichHeaderParser : Type := mk_parser {
  entries : OrderedDict;
  checksum_matches : bool
}.

(** [PERichHeaderParser(filename)] on a file with the given contents: the
    object when [_parse] returns, the exception it raises otherwise. *)
Definition decode (file : list byte) : exn + PERichHeaderParser :=
  match _parse file 0 with
  | inl e => inl e
  | inr (l, _) => inr (mk_parser (self_entries l) (self_checksum_matches l))
  end.

(** [__eq__] on two parser objects. *)
Fixpoint eq_items (items : OrderedDict) (other : OrderedDict) : bool :=
  match items with
  | [] => true
  | (k, v) :: items' =>
      match od_get other k with
      | None => false
      | Some v' => if negb (entry_eqb v v') then false else eq_items items' other
      end
  end.

Definition __eq__ (self other : PERichHeaderParser) : bool :=
  if negb (Nat.eqb (length (entries self)) (length (entries other))) then false
  else if negb (eq_items (entries self) (entries other)) then false
  else Bool.eqb (checksum_matches self) (checksum_matches other).

(** ** The report and the command line *)

Definition tab : ascii := "009"%char.
Definition newline : ascii := "010"%char.

(** The decimal digits [format] writes for an int. *)
Definition str_int (z : Z) : string := NilZero.string_of_int (Z.to_int z).

Fixpoint spaces (n : nat) : string :=
  match n with
  | O => EmptyString
  | S n' => String " " (spaces n')
  end.

(** The replacement field [{:w}] on an int: right-aligned in [w] columns,
    wider when the digits need it. *)
Definition format_width (w : nat) (z : Z) : string :=
  (spaces (w - String.length (str_int z)) ++ str_int z)%string.

(** ['{i:3}\t\t{v:5}\t\t{c:3}'.format(...)], line 118. *)
Definition format_row (item : Z * entry) : string :=
  (format_width 3 (fst item)
   ++ String tab (String tab
        (format_width 5 (build_version (snd item))
         ++ String tab (String tab
              (format_width 3 (used_count (snd item)))))))%string.

(** [str(b)] for a bool. *)
Definition str_bool (b : bool) : string :=
  if b then "True"%string else "False"%string.

(** ['ID\t\tBuildVersion\tUsed'], line 116. *)
Definition table_heading : string :=
  ("ID" ++ String tab (String tab ("BuildVersion" ++ String tab "Used")))%string.

(** [__str__]; [filename] is the attribute the constructor stored. *)
Definition __str__ (filename : string) (self : PERichHeaderParser) : string :=
  let ret := [] in
  let ret := ret ++ [("File: " ++ filename)%string] in
  let ret := ret ++ [table_heading] in
  let ret := ret ++ map format_row (entries self) in
  let ret := ret ++ [("Checksum Match: "
                      ++ str_bool (checksum_matches self))%string] in
  String.concat (String newline EmptyString) ret.

(** [main(filename1, filename2)] on two files given by name and
    contents: the strings printed, in order, and the exception that ends
    the run, if any. *)
Definition main (filename1 : string) (file1 : list byte)
    (filename2 : string) (file2 : list byte) : list string * option exn :=
  match decode file1 with
  | inl e => ([], Some e)
  | inr p =>
      let out := [__str__ filename1 p] in
      match decode file2 with
      | inl e => (out, Some e)
      | inr q =>
          let out := out ++ [__str__ filename2 q] in
          if __eq__ p q then
            (out ++ ["Both files have identical linker headers"%string], None)
          else
            (out ++ ["Both files have different linker headers"%string], None)
      end
  end.

(** Number of occurrences of a character in a string. *)
Fixpoint count_char (c : ascii) (s : string) : nat :=
  match s with
  | EmptyString => O
  | String a s' => (if Ascii.eqb a c then 1 else 0) + count_char c s'
  end.

(** Leading spaces removed. *)
Fixpoint lstrip (s : string) : string :=
  match s with
  | String a s' => if Ascii.eqb a " " then lstrip s' else s
  | EmptyString => EmptyString
  end.

(** The characters [str_int] writes. *)
Definition is_num_char (c : ascii) : bool :=
  existsb (Ascii.eqb c) (list_ascii_of_string "0123456789-").

Fixpoint all_chars (P : ascii -> bool) (s : string) : bool :=
  match s with
  | EmptyString => true
  | String a s' => P a && all_chars P s'
  end.

(** ** Reading by offset, and the arithmetic the statements refer to *)

(** The little-endian 32-bit word at offset [p], when four bytes are there. *)
Definition dword_at (file : list byte) (p : Z) : option Z :=
  match unpack_I (firstn 4 (skipn (Z.to_nat p) file)) with
  | inr w => Some w
  | inl _ => None
  end.

Definition word_at (file : list byte) (p : Z) : Z :=
  match dword_at file p with Some w => w | None => 0 end.

(** The word at offset [o], XORed with the stored checksum, is "DanS". *)
Definition dans_at (file : list byte) (hc o : Z) : bool :=
  match dword_at file o with
  | Some w => Z.lxor w hc =? DanS
  | None => false
  end.

(** The scan of lines 70-74 read by offsets: [n] candidate words from
    offset [o] upward in steps of four. *)
Fixpoint first_dans (file : list byte) (hc : Z) (n : nat) (o : Z) : exn + Z :=
  match n with
  | O => inr 0
  | S n' =>
      match dword_at file o with
      | None => inl struct_error
      | Some w =>
          if Z.lxor w hc =? DanS then inr o
          else first_dans file hc n' (o + 4)
      end
  end.

(** Result of a file computation, the final position dropped. *)
Definition run {A} (m : FileObj.t A) (file : list byte) (pos : Z) : exn + A :=
  match m file pos with
  | inl e => inl e
  | inr (a, _) => inr a
  end.

(** Rotate-left of a 32-bit word by [n] positions, [0 <= n < 32]. *)
Definition rotl32 (x n : Z) : Z :=
  Z.lor (Z.shiftl x n mod 2 ^ 32) (Z.shiftr x (32 - n)).

(** [sub] occurs in [hay] at offset [o]. *)
Definition occurs_at (sub hay : list byte) (o : nat) : bool :=
  is_prefix sub (skipn o hay).

(** [find_header] read by offsets: every [_read_dword] follows a [seek]
    or another read, so each word comes from a known offset. *)
Definition locate (file : list byte) : exn + header :=
  match dword_at file 0x3C with
  | None => inl struct_error
  | Some w =>
      let lfa_new := Z.land w 0xFFFF in
      let data := firstn (Z.to_nat lfa_new) file in
      let rich_location := bytes_find data Rich in
      if rich_location =? -1 then
        inl (InvalidHeaderError "Rich header does not exist")
      else
        match dword_at file (rich_location + 0x4) with
        | None => inl struct_error
        | Some header_checksum =>
            match dword_at file 0x80 with
            | None => inl struct_error
            | Some w80 =>
                match (if negb (Z.lxor w80 header_checksum =? DanS) then
                         first_dans file header_checksum
                                    (Z.to_nat ((lfa_new - 0x40) / 0x4)) 0x40
                       else inr 0x80) with
                | inl e => inl e
                | inr start_of_header =>
                    if start_of_header =? 0 then
                      inl (InvalidHeaderError
                             "Could not find start of Rich header")
                    else
                      inr (mk_header lfa_new data rich_location
                                     header_checksum start_of_header)
                end
            end
        end
  end.

(** The [i]-th pair of XOR-decoded words of a table that starts at [p]. *)
Definition pair_at (file : list byte) (hc p : Z) (i : Z) : Z * Z :=
  (Z.lxor (word_at file (p + 8 * i)) hc,
   Z.lxor (word_at file (p + 8 * i + 4)) hc).

(** One iteration of the entry loop on an already decoded pair. *)
Definition entry_step (st : Z * OrderedDict) (e : Z * Z) : Z * OrderedDict :=
  let '(current_dword, used_count) := e in
  (Z.land (fst st + Z.lor (Z.shiftl current_dword (used_count mod 32))
                          (Z.shiftr current_dword (32 - used_count mod 32)))
          0xFFFFFFFF,
   od_set (snd st) (Z.shiftr current_dword 16)
          (mk_entry (Z.land current_dword 0xFFFF) used_count)).

(** The XOR-decoded pairs (id word, count word) of the entry table of a
    located header, in file order. *)
Definition entry_pairs (file : list byte) (h : header) : list (Z * Z) :=
  map (pair_at file (header_checksum h) (start_of_header h + 0x10))
      (range ((rich_location h - start_of_header h - 0x10) / 0x8)).

(** The values [_parse] ends with, given the located header. *)
Definition locals_of (file : list byte) (h : header) : locals :=
  let bc := byte_loop (firstn (Z.to_nat (start_of_header h)) (data h))
                      (start_of_header h) in
  let st := fold_left entry_step (entry_pairs file h) (bc, []) in
  mk_locals h bc ((rich_location h - start_of_header h - 0x10) / 0x8)
            (fst st) (snd st) (fst st =? header_checksum h).

(** Step 5 in the specification's words: the accumulator skips the bytes
    at indices [0x3C <= i < 0x40] and otherwise adds the byte rotated left
    by [i mod 32] within 32 bits, modulo [2^32]. *)
Definition rol_byte_step (acc : Z) (ix : Z * byte) : Z :=
  let '(i, x) := ix in
  if (0x3C <=? i) && (i <? 0x40) then acc
  else (acc + rotl32 (byte_val x) (i mod 32)) mod 2 ^ 32.

Definition rol_accumulate (init : Z) (bytes : list byte) : Z :=
  fold_left rol_byte_step (enumerate bytes) init.

(** Step 6's fold in the specification's words, on a decoded pair. *)
Definition rol_entry_step (acc : Z) (e : Z * Z) : Z :=
  let '(id_word, use_count) := e in
  (acc + rotl32 id_word (use_count mod 32)) mod 2 ^ 32.

(** Step 6 in the specification's words: the item an eight-byte entry
    yields from its two words and the stored checksum. *)
Definition decode_entry (stored_checksum w1 w2 : Z) : Z * entry :=
  let id_word := Z.lxor w1 stored_checksum in
  let tool_id := Z.shiftr id_word 16 in
  (tool_id, mk_entry (Z.land id_word 0xFFFF) (Z.lxor w2 stored_checksum)).

(** The [n] entries of the table that starts 0x10 bytes after
    [header_start], in file order. *)
Definition table_entries (file : list byte) (header_start stored_checksum n : Z)
  : list (Z * entry) :=
  map (fun i => decode_entry stored_checksum
                  (word_at file (header_start + 0x10 + 8 * i))
                  (word_at file (header_start + 0x10 + 8 * i + 4)))
      (range n).

(** The keys of a sequence of items in order of first occurrence. *)
Fixpoint first_seen (ks : list Z) : list Z :=
  match ks with
  | [] => []
  | k :: ks' => k :: filter (fun k' => negb (k' =? k)) (first_seen ks')
  end.

(** The value of the last item with key [k]. *)
Fixpoint last_value (items : list (Z * entry)) (k : Z) : option entry :=
  match items with
  | [] => None
  | (k', v) :: items' =>
      match last_value items' k with
      | Some v' => Some v'
      | None => if k' =? k then Some v else None
      end
  end.

Definition od_insert (d : OrderedDict) (item : Z * entry) : OrderedDict :=
  od_set d (fst item) (snd item).

(** The item line 108 stores for a decoded pair. *)
Definition item_of_pair (e : Z * Z) : Z * entry :=
  (Z.shiftr (fst e) 16, mk_entry (Z.land (fst e) 0xFFFF) (snd e)).

(** [k in ks] *)
Definition mem_key (ks : list Z) (k : Z) : bool :=
  existsb (fun k' => k' =? k) ks.

(** [lfa_new] as the specification states it: the word at 0x3C masked
    to 16 bits. *)
Definition lfa_of (file : list byte) : Z := Z.land (word_at file 0x3C) 0xFFFF.

(** The 4-byte aligned offsets [lo], [lo + 4], ... strictly below [hi]. *)
Definition aligned_below (lo hi : Z) : list Z :=
  map (fun i => lo + 4 * i) (range ((hi - lo + 3) / 4)).

(** The candidate header starts the specification names: the default 0x80
    and the aligned offsets in [0x40, lfa_new). *)
Definition spec_candidates (lfa : Z) : list Z := 0x80 :: aligned_below 0x40 lfa.

(** The specification's condition for [HeaderNotFound]: no "Rich" in
    [0, lfa_new), or no candidate decodes to "DanS". *)
Definition spec_header_not_found (file : list byte) : bool :=
  let lfa := lfa_of file in
  let rich := bytes_find (firstn (Z.to_nat lfa) file) Rich in
  if rich =? -1 then true
  else forallb (fun o => negb (dans_at file (word_at file (rich + 4)) o))
               (spec_candidates lfa).

(** The specification's header start: 0x80 if it decodes, otherwise the
    first aligned offset from 0x40 strictly below [lfa_new] that does. *)
Definition spec_header_start (file : list byte) : option Z :=
  let lfa := lfa_of file in
  let rich := bytes_find (firstn (Z.to_nat lfa) file) Rich in
  let hc := word_at file (rich + 4) in
  if dans_at file hc 0x80 then Some 0x80
  else find (dans_at file hc) (aligned_below 0x40 lfa).

(** ** Sample files *)

Definition byte_of_Z (z : Z) : byte :=
  match Byte.of_N (Z.to_N (z mod 256)) with Some b => b | None => x00 end.

(** Four bytes, little-endian. *)
Definition le32 (w : Z) : list byte :=
  map byte_of_Z [w; w / 2 ^ 8; w / 2 ^ 16; w / 2 ^ 24].

Definition zeros (n : nat) : list byte := repeat x00 n.

(** The first 0x40 bytes of an MZ executable: "MZ", padding, [e_lfanew]. *)
Definition mz_header (lfa : Z) : list byte :=
  [x4d; x5a] ++ zeros 58 ++ le32 lfa.

(** A well-formed file: header at 0x80, three entries (the tool id 0x0104
    occurs twice), "Rich" at 0xA8, the PE signature at 0xB0. *)
Definition sample_checksum : Z := 0x2CCC0B1D.

Definition sample_pairs : list (Z * Z) :=
  [(0x01047809, 5); (0x01057809, 3); (0x0104520D, 2)].

Definition sample_file : list byte :=
  mz_header 0xB0 ++ zeros 64
  ++ le32 (Z.lxor DanS sample_checksum)
  ++ le32 sample_checksum ++ le32 sample_checksum ++ le32 sample_checksum
  ++ flat_map (fun e => le32 (Z.lxor (fst e) sample_checksum)
                        ++ le32 (Z.lxor (snd e) sample_checksum)) sample_pairs
  ++ Rich ++ le32 sample_checksum
  ++ [x50; x45; x00; x00].

(** The sample with the second count word changed and the stored checksum
    left as it was. *)
Definition tampered_file : list byte :=
  firstn 0x9C sample_file ++ le32 (Z.lxor 4 sample_checksum)
  ++ skipn 0xA0 sample_file.

(** [e_lfanew = 0x48]: "Rich" at 0x40, stored checksum 0x11223344 at 0x44,
    a byte 0x01 at 0x48, and a word at 0x80 that decodes to "DanS". *)
Definition short_stub_file : list byte :=
  mz_header 0x48 ++ Rich ++ le32 0x11223344
  ++ [x01] ++ zeros 55
  ++ le32 (Z.lxor DanS 0x11223344).

(** 0x48 bytes: "Rich" at 0x40 and a checksum, nothing at 0x80. *)
Definition truncated_file : list byte :=
  mz_header 0x48 ++ Rich ++ le32 0x11223344.

(** 0x50 bytes, [e_lfanew = 0x50]: the word at 0x40 decodes to "DanS",
    "Rich" is at 0x48 and the checksum at 0x4C; nothing at 0x80. *)
Definition truncated_dans_file : list byte :=
  mz_header 0x50 ++ le32 (Z.lxor DanS 0x11223344) ++ zeros 4
  ++ Rich ++ le32 0x11223344.

(** [e_lfanew = 0x42]: "Rich" at 0x10, and the word at 0x40 decodes to
    "DanS"; 0x84 bytes in all, zero at 0x80. *)
Definition unaligned_file : list byte :=
  [x4d; x5a] ++ zeros 14 ++ Rich ++ le32 0x11223344 ++ zeros 36
  ++ le32 0x42
  ++ le32 (Z.lxor DanS 0x11223344) ++ zeros 64.

(** [e_lfanew = 0x50]: "Rich" at 0x40, the checksum at 0x44, and the word
    at 0x48 decodes to "DanS"; 0x84 bytes in all, zero at 0x80. *)
Definition rich_first_file : list byte :=
  mz_header 0x50 ++ Rich ++ le32 0x11223344
  ++ le32 (Z.lxor DanS 0x11223344) ++ zeros 56.

(** What [_parse] holds at the end of its run on [sample_file]. *)
Definition sample_header : header :=
  mk_header 0xB0 (firstn 0xB0 sample_file) 0xA8 sample_checksum 0x80.

Definition sample_locals : locals := locals_of sample_file sample_header.

(** What lines 48-76 establish on [rich_first_file]. *)
Definition rich_first_header : header :=
  mk_header 0x50 (firstn 0x50 rich_first_file) 0x40 0x11223344 0x48.

(** Two results with the same items in different insertion order, and a
    third that differs from the first in one count. *)
Definition result_a : PERichHeaderParser :=
  mk_parser [(0x0104, mk_entry 0x520D 2); (0x0105, mk_entry 0x7809 3)] true.

Definition result_b : PERichHeaderParser :=
  mk_parser [(0x0105, mk_entry 0x7809 3); (0x0104, mk_entry 0x520D 2)] true.

Definition result_c : PERichHeaderParser :=
  mk_parser [(0x0104, mk_entry 0x520D 2); (0x0105, mk_entry 0x7809 4)] true.

(** The sample with the second count word changed from 3 to 35, a
    change in bit 5 only. *)
Definition count_changed_file : list byte :=
  firstn 0x9C sample_file ++ le32 (Z.lxor 35 sample_checksum)
  ++ skipn 0xA0 sample_file.

Definition count_changed_locals : locals :=
  locals_of count_changed_file
    (mk_header 0xB0 (firstn 0xB0 count_changed_file) 0xA8 sample_checksum
               0x80).

(** Two decoded pairs the entry loop cannot tell apart in the checksum:
    the same id word, and counts that agree modulo 32. *)
Definition same_rotation (e e' : Z * Z) : Prop :=
  fst e = fst e' /\ snd e mod 32 = snd e' mod 32.

(** The eight bytes of an entry: its two words XORed with the checksum. *)
Definition enc_pair (hc : Z) (e : Z * Z) : list byte :=
  le32 (Z.lxor (fst e) hc) ++ le32 (Z.lxor (snd e) hc).

(** A file laid out the way the parser expects by default: 0x80 bytes of
    MZ part, the masked "DanS" word, twelve bytes of padding, the masked
    entries, "Rich", the stored checksum, and the rest of the file. *)
Definition rich_layout (stub pad : list byte) (pairs : list (Z * Z)) (hc : Z)
    (rest : list byte) : list byte :=
  stub ++ le32 (Z.lxor DanS hc) ++ pad
  ++ flat_map (enc_pair hc) pairs
  ++ Rich ++ le32 hc ++ rest.

Definition word32 (e : Z * Z) : Prop :=
  0 <= fst e < 2 ^ 32 /\ 0 <= snd e < 2 ^ 32.

(** * Properties *)

(** ** Bytes and words *)

Lemma byte_val_range (x : byte) : 0 <= byte_val x < 256.
Proof.
  unfold byte_val. pose proof (Byte.to_N_bounded x). lia.
Qed.

Lemma unpack_I_inr buf w :
  unpack_I buf = inr w -> length buf = 4%nat /\ 0 <= w < 2 ^ 32.
Proof.
  destruct buf as [|b0 [|b1 [|b2 [|b3 [|b4 buf]]]]];
    cbn [unpack_I]; try discriminate.
  intros H. injection H as <-. split; [reflexivity|].
  pose proof (byte_val_range b0). pose proof (byte_val_range b1).
  pose proof (byte_val_range b2). pose proof (byte_val_range b3).
  change (2 ^ 8) with 256. change (2 ^ 16) with 65536.
  change (2 ^ 24) with 16777216. change (2 ^ 32) with 4294967296. lia.
Qed.

Lemma unpack_I_inl buf e :
  unpack_I buf = inl e -> e = struct_error /\ length buf <> 4%nat.
Proof.
  destruct buf as [|b0 [|b1 [|b2 [|b3 [|b4 buf]]]]]; cbn [unpack_I];
    intros H; try discriminate; injection H as <-; split;
    try reflexivity; cbn [length]; lia.
Qed.

Lemma length_chunk4 (file : list byte) (p : nat) :
  length (firstn 4 (skipn p file)) = Nat.min 4 (length file - p).
Proof. rewrite length_firstn, length_skipn. reflexivity. Qed.

Lemma dword_at_Some_iff file p :
  0 <= p ->
  (exists w, dword_at file p = Some w) <-> p + 4 <= Z.of_nat (length file).
Proof.
  intros Hp. unfold dword_at.
  destruct (unpack_I _) as [e|w] eqn:E.
  - apply unpack_I_inl in E. destruct E as [_ E].
    rewrite length_chunk4 in E. split; [intros [w Hw]; discriminate|].
    intros H. exfalso. lia.
  - apply unpack_I_inr in E. destruct E as [E _].
    rewrite length_chunk4 in E. split; [intros _; lia|eauto].
Qed.

Lemma dword_at_in_bounds file p :
  0 <= p -> p + 4 <= Z.of_nat (length file) ->
  exists w, dword_at file p = Some w.
Proof. intros Hp H. apply dword_at_Some_iff; assumption. Qed.

Lemma dword_at_Some_bound file p w :
  0 <= p -> dword_at file p = Some w -> p + 4 <= Z.of_nat (length file).
Proof. intros Hp H. apply dword_at_Some_iff; eauto. Qed.

Lemma dword_at_past_end file p :
  0 <= p -> Z.of_nat (length file) < p + 4 -> dword_at file p = None.
Proof.
  intros Hp H. destruct (dword_at file p) as [w|] eqn:E; [|reflexivity].
  apply dword_at_Some_bound in E; lia.
Qed.

Lemma dword_at_range file p w :
  dword_at file p = Some w -> 0 <= w < 2 ^ 32.
Proof.
  unfold dword_at. destruct (unpack_I _) as [e|w'] eqn:E; [discriminate|].
  intros H. injection H as <-. apply unpack_I_inr in E. tauto.
Qed.

(** [_read_dword] at position [p]: the word there and position [p + 4],
    or [struct.error]. *)
Lemma read_dword_eq file p :
  _read_dword file p =
  match dword_at file p with
  | Some w => inr (w, p + 4)
  | None => inl struct_error
  end.
Proof.
  unfold _read_dword, FileObj.bind, FileObj.read, FileObj.lift, dword_at.
  change (Z.to_nat 4) with 4%nat.
  destruct (unpack_I _) as [e|w] eqn:E.
  - apply unpack_I_inl in E. destruct E as [-> _]. reflexivity.
  - apply unpack_I_inr in E. destruct E as [E _]. rewrite E. reflexivity.
Qed.

(** ** [bytes.find] *)

Lemma is_prefix_length sub hay :
  is_prefix sub hay = true -> (length sub <= length hay)%nat.
Proof.
  revert hay. induction sub as [|x sub IH]; intros [|y hay]; simpl;
    try discriminate; try lia.
  intros H. apply andb_prop in H. destruct H as [_ H].
  apply IH in H. lia.
Qed.

Lemma is_prefix_firstn sub hay :
  is_prefix sub hay = true <-> firstn (length sub) hay = sub.
Proof.
  revert hay. induction sub as [|x sub IH]; intros [|y hay]; simpl;
    try (split; [reflexivity | reflexivity]);
    try (split; discriminate).
  rewrite andb_true_iff, IH. split.
  - intros [H1 H2]. apply Byte.byte_dec_bl in H1. congruence.
  - intros H. injection H as H1 H2. split; [|assumption].
    apply Byte.byte_dec_lb. congruence.
Qed.

Lemma find_from_spec sub hay :
  forall i, 0 <= i ->
    (find_from sub hay i = -1 /\ forall k, occurs_at sub hay k = false)
    \/ (i <= find_from sub hay i <= i + Z.of_nat (length hay)
        /\ occurs_at sub hay (Z.to_nat (find_from sub hay i - i)) = true
        /\ forall k, (k < Z.to_nat (find_from sub hay i - i))%nat ->
                     occurs_at sub hay k = false).
Proof.
  unfold occurs_at.
  induction hay as [|y hay IH]; intros i Hi; cbn [find_from].
  - destruct (is_prefix sub []) eqn:E.
    + right. rewrite Z.sub_diag. simpl. repeat split; [lia|lia|assumption|lia].
    + left. split; [reflexivity|]. intros k. rewrite skipn_nil. assumption.
  - destruct (is_prefix sub (y :: hay)) eqn:E.
    + right. rewrite Z.sub_diag. cbn [Z.to_nat skipn].
      repeat split; [lia|lia|assumption|lia].
    + destruct (IH (i + 1)) as [[H1 H2]|[H1 [H2 H3]]]; [lia| |].
      * left. split; [assumption|]. intros [|k]; simpl; auto.
      * right. set (r := find_from sub hay (i + 1)) in *.
        replace (Z.to_nat (r - i)) with (S (Z.to_nat (r - (i + 1)))) by lia.
        cbn [length]. repeat split; [lia|lia|assumption|].
        intros [|k] Hk; simpl; [assumption|]. apply H3. lia.
Qed.

(** A found "Rich" lies inside the searched bytes. *)
Lemma bytes_find_found hay sub :
  bytes_find hay sub <> -1 ->
  0 <= bytes_find hay sub
  /\ bytes_find hay sub + Z.of_nat (length sub) <= Z.of_nat (length hay)
  /\ occurs_at sub hay (Z.to_nat (bytes_find hay sub)) = true
  /\ forall k, (k < Z.to_nat (bytes_find hay sub))%nat ->
               occurs_at sub hay k = false.
Proof.
  unfold bytes_find. intros Hne.
  destruct (find_from_spec sub hay 0) as [[H1 _]|[H1 [H2 H3]]];
    [lia|contradiction|].
  rewrite Z.sub_0_r in H2, H3.
  repeat split; try assumption; [lia|].
  unfold occurs_at in H2. apply is_prefix_length in H2.
  rewrite length_skipn in H2. lia.
Qed.

Lemma bytes_find_absent hay sub :
  bytes_find hay sub = -1 <-> forall k, occurs_at sub hay k = false.
Proof.
  unfold bytes_find.
  destruct (find_from_spec sub hay 0) as [[H1 H2]|[H1 [H2 H3]]]; [lia| |].
  - tauto.
  - split; [lia|]. intros H. rewrite H in H2. discriminate.
Qed.

(** ** The loops, read by offsets *)

Lemma scan_dans_run hc file :
  forall n a,
    run (scan_dans hc (map Z.of_nat (seq a n))) file (0x40 + 4 * Z.of_nat a)
    = first_dans file hc n (0x40 + 4 * Z.of_nat a).
Proof.
  induction n as [|n IH]; intros a; [reflexivity|].
  cbn [seq map scan_dans first_dans]. unfold run, FileObj.bind.
  rewrite read_dword_eq.
  destruct (dword_at file _) as [w|]; [|reflexivity].
  destruct (Z.lxor w hc =? DanS).
  - unfold FileObj.ret. f_equal. lia.
  - specialize (IH (S a)). unfold run in IH.
    replace (0x40 + 4 * Z.of_nat a + 4) with (0x40 + 4 * Z.of_nat (S a)) by lia.
    exact IH.
Qed.

(** The scan either stops at the first candidate that decodes to "DanS",
    or sees [n] readable words none of which does, or runs off the file. *)
Lemma first_dans_found file hc :
  forall n o s,
    0 <= o -> s <> 0 ->
    (first_dans file hc n o = inr s <->
     exists i, (i < n)%nat /\ s = o + 4 * Z.of_nat i
               /\ dans_at file hc s = true
               /\ forall j, (j < i)%nat ->
                            dans_at file hc (o + 4 * Z.of_nat j) = false).
Proof.
  induction n as [|n IH]; intros o s Ho Hs; cbn [first_dans].
  - split; [intros H; injection H; lia|intros [i [H _]]; lia].
  - destruct (dword_at file o) as [w|] eqn:Ew.
    + destruct (Z.lxor w hc =? DanS) eqn:Ed.
      * split.
        -- intros H. injection H as <-. exists 0%nat.
           rewrite Z.add_0_r. unfold dans_at. rewrite Ew.
           repeat split; [lia|assumption|lia].
        -- intros [[|i] [Hi [-> [Hd Hj]]]]; [f_equal; lia|].
           specialize (Hj 0%nat ltac:(lia)). rewrite Z.add_0_r in Hj.
           unfold dans_at in Hj. rewrite Ew, Ed in Hj. discriminate.
      * rewrite IH by lia. split.
        -- intros [i [Hi [-> [Hd Hj]]]]. exists (S i).
           repeat split; [lia|lia| |].
           ++ replace (o + 4 * Z.of_nat (S i)) with (o + 4 + 4 * Z.of_nat i)
                by lia. assumption.
           ++ intros [|j] Hlt.
              ** rewrite Z.add_0_r. unfold dans_at. rewrite Ew. assumption.
              ** replace (o + 4 * Z.of_nat (S j))
                   with (o + 4 + 4 * Z.of_nat j) by lia.
                 apply Hj. lia.
        -- intros [[|i] [Hi [-> [Hd Hj]]]].
           ++ rewrite Z.add_0_r in Hd. unfold dans_at in Hd.
              rewrite Ew, Ed in Hd. discriminate.
           ++ exists i. repeat split; [lia|lia| |].
              ** replace (o + 4 + 4 * Z.of_nat i)
                   with (o + 4 * Z.of_nat (S i)) by lia. assumption.
              ** intros j Hlt.
                 replace (o + 4 + 4 * Z.of_nat j)
                   with (o + 4 * Z.of_nat (S j)) by lia.
                 apply Hj. lia.
    + split; [discriminate|].
      intros [i [Hi [-> [Hd Hj]]]]. exfalso.
      unfold dans_at in Hd.
      destruct (dword_at file (o + 4 * Z.of_nat i)) as [w|] eqn:E;
        [|discriminate].
      apply dword_at_Some_bound in E; [|lia].
      destruct (dword_at_in_bounds file o Ho) as [w' Hw']; [lia|].
      congruence.
Qed.

Lemma first_dans_none file hc :
  forall n o,
    0 < o ->
    (first_dans file hc n o = inr 0 <->
     forall j, (j < n)%nat ->
               exists w, dword_at file (o + 4 * Z.of_nat j) = Some w
                         /\ Z.lxor w hc <> DanS).
Proof.
  induction n as [|n IH]; intros o Ho; cbn [first_dans].
  - split; [intros _ j Hj; lia|reflexivity].
  - destruct (dword_at file o) as [w|] eqn:Ew.
    + destruct (Z.lxor w hc =? DanS) eqn:Ed.
      * split; [intros H; injection H; lia|].
        intros H. destruct (H 0%nat ltac:(lia)) as [w' [H1 H2]].
        rewrite Z.add_0_r, Ew in H1. injection H1 as <-.
        apply Z.eqb_eq in Ed. contradiction.
      * rewrite IH by lia. split.
        -- intros H [|j] Hj.
           ++ rewrite Z.add_0_r. exists w. split; [assumption|].
              apply Z.eqb_neq. assumption.
           ++ replace (o + 4 * Z.of_nat (S j))
                with (o + 4 + 4 * Z.of_nat j) by lia.
              apply H. lia.
        -- intros H j Hj.
           replace (o + 4 + 4 * Z.of_nat j)
             with (o + 4 * Z.of_nat (S j)) by lia.
           apply H. lia.
    + split; [discriminate|].
      intros H. destruct (H 0%nat ltac:(lia)) as [w' [H1 _]].
      rewrite Z.add_0_r, Ew in H1. discriminate.
Qed.

Lemma first_dans_error file hc :
  forall n o e, first_dans file hc n o = inl e -> e = struct_error.
Proof.
  induction n as [|n IH]; intros o e; cbn [first_dans]; [discriminate|].
  destruct (dword_at file o) as [w|]; [|intros H; injection H; auto].
  destruct (Z.lxor w hc =? DanS); [discriminate|apply IH].
Qed.

Lemma first_dans_result file hc :
  forall n o s,
    0 < o -> first_dans file hc n o = inr s -> s = 0 \/ o <= s.
Proof.
  induction n as [|n IH]; intros o s Ho; cbn [first_dans].
  - intros H. injection H as <-. auto.
  - destruct (dword_at file o) as [w|]; [|discriminate].
    destruct (Z.lxor w hc =? DanS).
    + intros H. injection H as <-. right. lia.
    + intros H. apply IH in H; lia.
Qed.

Lemma entry_loop_ok hc file :
  forall idx a st p0,
    0 <= p0 ->
    p0 + 8 * Z.of_nat (a + length idx) <= Z.of_nat (length file) ->
    entry_loop hc idx st file (p0 + 8 * Z.of_nat a)
    = inr (fold_left entry_step
             (map (pair_at file hc p0) (map Z.of_nat (seq a (length idx)))) st,
           p0 + 8 * Z.of_nat (a + length idx)).
Proof.
  induction idx as [|i idx IH]; intros a st p0 Hp Hlen.
  - cbn [entry_loop length seq map fold_left]. unfold FileObj.ret.
    rewrite Nat.add_0_r. reflexivity.
  - cbn [length] in *. cbn [entry_loop seq map fold_left].
    unfold FileObj.bind. rewrite read_dword_eq.
    destruct (dword_at_in_bounds file (p0 + 8 * Z.of_nat a)) as [w1 E1];
      [lia|lia|].
    rewrite E1. rewrite read_dword_eq.
    destruct (dword_at_in_bounds file (p0 + 8 * Z.of_nat a + 4)) as [w2 E2];
      [lia|lia|].
    rewrite E2.
    replace (p0 + 8 * Z.of_nat a + 4 + 4) with (p0 + 8 * Z.of_nat (S a)) by lia.
    rewrite IH by lia.
    assert (Hpair : pair_at file hc p0 (Z.of_nat a)
                    = (Z.lxor w1 hc, Z.lxor w2 hc)).
    { unfold pair_at, word_at. rewrite E1, E2. reflexivity. }
    rewrite Hpair. cbn [entry_step]. do 2 f_equal. lia.
Qed.

Lemma entry_loop_truncated hc file :
  forall idx st p,
    0 <= p -> idx <> [] ->
    Z.of_nat (length file) < p + 8 * Z.of_nat (length idx) ->
    entry_loop hc idx st file p = inl struct_error.
Proof.
  induction idx as [|i idx IH]; intros st p Hp Hne Hlen; [contradiction|].
  cbn [entry_loop]. unfold FileObj.bind. rewrite read_dword_eq.
  destruct (dword_at file p) as [w1|] eqn:E1; [|reflexivity].
  rewrite read_dword_eq.
  destruct (dword_at file (p + 4)) as [w2|] eqn:E2; [|reflexivity].
  apply dword_at_Some_bound in E2; [|lia].
  destruct idx as [|i' idx].
  - cbn [length] in Hlen. lia.
  - apply IH; [lia|discriminate|]. cbn [length] in *. lia.
Qed.

(** ** The header search, read by offsets *)

Lemma find_header_run file p : run find_header file p = locate file.
Proof.
  unfold run, find_header, locate, FileObj.bind, FileObj.seek.
  rewrite read_dword_eq.
  destruct (dword_at file 0x3C) as [w|]; [|reflexivity].
  unfold FileObj.read. cbn [Z.to_nat skipn].
  set (lfa := Z.land w 0xFFFF).
  set (dat := firstn (Z.to_nat lfa) file).
  destruct (bytes_find dat Rich =? -1); [reflexivity|].
  rewrite read_dword_eq.
  destruct (dword_at file (bytes_find dat Rich + 0x4)) as [hc|]; [|reflexivity].
  rewrite read_dword_eq.
  destruct (dword_at file 0x80) as [w80|]; [|reflexivity].
  destruct (negb (Z.lxor w80 hc =? DanS)).
  - pose proof (scan_dans_run hc file (Z.to_nat ((lfa - 0x40) / 0x4)) 0) as H.
    unfold run in H. change (0x40 + 4 * Z.of_nat 0) with 0x40 in H.
    unfold range.
    destruct (scan_dans hc _ file 0x40) as [e|[s q]]; rewrite <- H;
      [reflexivity|].
    destruct (s =? 0); reflexivity.
  - reflexivity.
Qed.

(** What a located header satisfies. *)
Lemma locate_inv file h :
  locate file = inr h ->
  exists w w80,
    dword_at file 0x3C = Some w
    /\ lfa_new h = Z.land w 0xFFFF
    /\ data h = firstn (Z.to_nat (lfa_new h)) file
    /\ rich_location h = bytes_find (data h) Rich
    /\ rich_location h <> -1
    /\ dword_at file (rich_location h + 4) = Some (header_checksum h)
    /\ dword_at file 0x80 = Some w80
    /\ ((Z.lxor w80 (header_checksum h) = DanS /\ start_of_header h = 0x80)
        \/ (Z.lxor w80 (header_checksum h) <> DanS
            /\ start_of_header h <> 0
            /\ first_dans file (header_checksum h)
                 (Z.to_nat ((lfa_new h - 0x40) / 4)) 0x40
               = inr (start_of_header h))).
Proof.
  unfold locate.
  destruct (dword_at file 0x3C) as [w|]; [|discriminate].
  destruct (bytes_find _ Rich =? -1) eqn:Er; [discriminate|].
  destruct (dword_at file (bytes_find _ Rich + 0x4)) as [hc|] eqn:Eh;
    [|discriminate].
  destruct (dword_at file 0x80) as [w80|]; [|discriminate].
  destruct (Z.lxor w80 hc =? DanS) eqn:Ed; cbn [negb].
  - change (0x80 =? 0) with false. cbv iota.
    intros H. injection H as <-. cbn [lfa_new data rich_location
      header_checksum start_of_header].
    exists w, w80. apply Z.eqb_neq in Er. apply Z.eqb_eq in Ed.
    repeat split; auto.
  - destruct (first_dans file hc _ 0x40) as [e|s] eqn:Es; [discriminate|].
    destruct (s =? 0) eqn:E0; [discriminate|].
    intros H. injection H as <-. cbn [lfa_new data rich_location
      header_checksum start_of_header].
    exists w, w80. apply Z.eqb_neq in Er, Ed, E0.
    repeat split; auto.
Qed.

(** The geometry of a located header: "Rich" and the stored checksum
    lie inside the file, and the word at the header start decodes to
    "DanS". *)
Lemma locate_geometry file h :
  locate file = inr h ->
  0 <= rich_location h
  /\ rich_location h + 4 <= Z.of_nat (length (data h))
  /\ rich_location h + 8 <= Z.of_nat (length file)
  /\ (length (data h) <= length file)%nat
  /\ Z.of_nat (length (data h)) <= lfa_new h
  /\ 0x40 <= start_of_header h
  /\ dans_at file (header_checksum h) (start_of_header h) = true
  /\ start_of_header h + 4 <= Z.of_nat (length file)
  /\ (start_of_header h = 0x80
      \/ start_of_header h + 4 <= lfa_new h).
Proof.
  intros H. destruct (locate_inv file h H)
    as (w & w80 & Hw & Hlfa & Hdata & Hrich & Hne & Hhc & Hw80 & Hstart).
  rewrite Hrich in Hne.
  destruct (bytes_find_found (data h) Rich Hne) as (R1 & R2 & _).
  rewrite <- Hrich in R1, R2. change (Z.of_nat (length Rich)) with 4 in R2.
  assert (Hdl : (length (data h) <= length file)%nat).
  { rewrite Hdata, length_firstn. lia. }
  assert (Hdl2 : Z.of_nat (length (data h)) <= lfa_new h).
  { assert (0 <= lfa_new h) by (rewrite Hlfa; apply Z.land_nonneg; lia).
    rewrite Hdata at 1. rewrite length_firstn. lia. }
  apply dword_at_Some_bound in Hhc as Hb; [|lia].
  assert (Hs : 0x40 <= start_of_header h
               /\ dans_at file (header_checksum h) (start_of_header h) = true
               /\ (start_of_header h = 0x80
                   \/ start_of_header h + 4 <= lfa_new h)).
  { destruct Hstart as [[Hd ->]|(Hd & Hnz & Hscan)].
    - unfold dans_at. rewrite Hw80. apply Z.eqb_eq in Hd.
      repeat split; [lia|assumption|auto].
    - apply first_dans_found in Hscan; [|lia|assumption].
      destruct Hscan as (i & Hi & Hsi & Hdi & _).
      repeat split; [lia|assumption|right].
      assert (0 <= (lfa_new h - 0x40) / 4
              /\ 4 * ((lfa_new h - 0x40) / 4) <= lfa_new h - 0x40).
      { assert (0 < Z.to_nat ((lfa_new h - 0x40) / 4))%nat by lia.
        split; [lia|]. apply Z.mul_div_le. lia. }
      lia. }
  destruct Hs as (S1 & S2 & S3).
  assert (start_of_header h + 4 <= Z.of_nat (length file)).
  { unfold dans_at in S2.
    destruct (dword_at file (start_of_header h)) as [ws|] eqn:E;
      [|discriminate].
    apply dword_at_Some_bound in E; lia. }
  repeat split; auto; lia.
Qed.

Lemma length_range n : length (range n) = Z.to_nat n.
Proof. unfold range. rewrite length_map, length_seq. reflexivity. Qed.

(** After the header is located, the rest of [_parse] cannot fail: every
    entry it reads lies before "Rich". *)
Lemma parse_body_run file h p :
  locate file = inr h ->
  run (parse_body h) file p = inr (locals_of file h).
Proof.
  intros H. destruct (locate_geometry file h H)
    as (R1 & R2 & R3 & D1 & D2 & S1 & S2 & S3 & S4).
  unfold run, parse_body, FileObj.bind, FileObj.seek, locals_of, entry_pairs.
  set (te := (rich_location h - start_of_header h - 0x10) / 0x8).
  set (bc := byte_loop _ _).
  destruct (Z_le_gt_dec te 0) as [Hte|Hte].
  - unfold range. replace (Z.to_nat te) with 0%nat by lia. reflexivity.
  - assert (8 * te <= rich_location h - start_of_header h - 0x10)
      by (apply Z.mul_div_le; lia).
    pose proof (entry_loop_ok (header_checksum h) file (range te) 0 (bc, [])
                  (start_of_header h + 0x10)) as E.
    rewrite length_range in E.
    replace (start_of_header h + 0x10 + 8 * Z.of_nat 0)
      with (start_of_header h + 0x10) in E by lia.
    rewrite E by lia. reflexivity.
Qed.

Lemma parse_run file p :
  run _parse file p =
  match locate file with
  | inl e => inl e
  | inr h => inr (locals_of file h)
  end.
Proof.
  pose proof (find_header_run file p) as F.
  unfold run, _parse, FileObj.bind in *.
  destruct (find_header file p) as [e|[h q]]; rewrite <- F; [reflexivity|].
  symmetry in F. pose proof (parse_body_run file h q F) as B.
  unfold run in B. exact B.
Qed.

Lemma decode_eq file :
  decode file =
  match locate file with
  | inl e => inl e
  | inr h =>
      inr (mk_parser (self_entries (locals_of file h))
                     (self_checksum_matches (locals_of file h)))
  end.
Proof.
  pose proof (parse_run file 0) as P. unfold run in P. unfold decode.
  destruct (_parse file 0) as [e|[l q]], (locate file) as [e'|h];
    try discriminate; congruence.
Qed.

(** ** Rotation and masking *)

Lemma mask32 x : Z.land x 0xFFFFFFFF = x mod 2 ^ 32.
Proof. change 0xFFFFFFFF with (Z.ones 32). apply Z.land_ones. lia. Qed.

Lemma lor_mod32 a b :
  Z.lor a b mod 2 ^ 32 = Z.lor (a mod 2 ^ 32) (b mod 2 ^ 32).
Proof. rewrite <- !Z.land_ones by lia. apply Z.land_lor_distr_l. Qed.

Lemma shiftr_le x k : 0 <= x -> 0 <= k -> 0 <= Z.shiftr x k <= x.
Proof.
  intros Hx Hk. rewrite Z.shiftr_div_pow2 by assumption.
  assert (0 < 2 ^ k) by (apply Z.pow_pos_nonneg; lia).
  split; [apply Z.div_pos; lia|].
  apply Z.div_le_upper_bound; [assumption|]. nia.
Qed.

Lemma bits_high32 x j :
  0 <= x < 2 ^ 32 -> 32 <= j -> Z.testbit x j = false.
Proof.
  intros Hx Hj. destruct (Z.eq_dec x 0) as [->|Hnz]; [apply Z.bits_0|].
  apply Z.bits_above_log2; [lia|].
  assert (Z.log2 x < 32) by (apply Z.log2_lt_pow2; lia). lia.
Qed.

(** [rotl32] moves bit [j - n] (modulo 32) to bit [j]. *)
Lemma rotl32_testbit x n j :
  0 <= x < 2 ^ 32 -> 0 <= n < 32 -> 0 <= j < 32 ->
  Z.testbit (rotl32 x n) j = Z.testbit x ((j - n) mod 32).
Proof.
  intros Hx Hn Hj. unfold rotl32.
  rewrite Z.lor_spec, Z.mod_pow2_bits_low by lia.
  rewrite Z.shiftl_spec, Z.shiftr_spec by lia.
  destruct (Z_lt_le_dec j n) as [L|L].
  - rewrite (Z.testbit_neg_r x (j - n)) by lia. cbn [orb].
    f_equal. symmetry.
    replace (j - n) with (j + (32 - n) + -1 * 32) by lia.
    rewrite Z.mod_add by lia. apply Z.mod_small. lia.
  - rewrite (Z.mod_small (j - n)) by lia.
    rewrite (bits_high32 x (j + (32 - n))) by lia.
    apply orb_false_r.
Qed.

(** The expression of line 105, reduced modulo [2^32], is the rotation. *)
Lemma rol_expr_mod x n :
  0 <= x < 2 ^ 32 -> 0 <= n < 32 ->
  Z.lor (Z.shiftl x n) (Z.shiftr x (32 - n)) mod 2 ^ 32 = rotl32 x n.
Proof.
  intros Hx Hn. unfold rotl32. rewrite lor_mod32. f_equal.
  apply Z.mod_small. pose proof (shiftr_le x (32 - n)). lia.
Qed.

Lemma add_mask32 acc v :
  Z.land (acc + v) 0xFFFFFFFF = (acc + v mod 2 ^ 32) mod 2 ^ 32.
Proof. rewrite mask32. symmetry. apply Zplus_mod_idemp_r. Qed.

Lemma lxor_range32 a b :
  0 <= a < 2 ^ 32 -> 0 <= b < 2 ^ 32 -> 0 <= Z.lxor a b < 2 ^ 32.
Proof.
  intros Ha Hb.
  assert (E : Z.lxor a b mod 2 ^ 32 = Z.lxor a b).
  { apply Z.bits_inj'. intros j Hj.
    destruct (Z_lt_le_dec j 32) as [L|L].
    - apply Z.mod_pow2_bits_low. assumption.
    - rewrite Z.mod_pow2_bits_high by lia.
      rewrite Z.lxor_spec, !bits_high32 by assumption. reflexivity. }
  rewrite <- E. apply Z.mod_pos_bound. lia.
Qed.

(** The expression of lines 86 and 90 on a byte value. *)
Lemma byte_step_rol acc i x :
  0 <= i -> byte_step acc (i, x) = rol_byte_step acc (i, x).
Proof.
  intros Hi. unfold byte_step, rol_byte_step.
  destruct ((0x3c <=? i) && (i <? 0x40)); [reflexivity|].
  pose proof (byte_val_range x) as Hx.
  assert (Hn : 0 <= i mod 32 < 32) by (apply Z.mod_pos_bound; lia).
  assert (Hs : Z.land (Z.shiftr (byte_val x) (32 - i mod 32)) 0xff
               = Z.shiftr (byte_val x) (32 - i mod 32)).
  { change 0xff with (Z.ones 8). rewrite Z.land_ones by lia.
    apply Z.mod_small.
    pose proof (shiftr_le (byte_val x) (32 - i mod 32)).
    change (2 ^ 8) with 256. lia. }
  rewrite Hs, add_mask32, rol_expr_mod; [reflexivity| |assumption].
  change (2 ^ 32) with 4294967296. lia.
Qed.

Lemma byte_loop_from_rol :
  forall bytes i acc,
    0 <= i ->
    fold_left byte_step (enumerate_from i bytes) acc
    = fold_left rol_byte_step (enumerate_from i bytes) acc.
Proof.
  induction bytes as [|x bytes IH]; intros i acc Hi; [reflexivity|].
  cbn [enumerate_from fold_left]. rewrite byte_step_rol by assumption.
  apply IH. lia.
Qed.

Lemma byte_loop_rol bytes init : byte_loop bytes init = rol_accumulate init bytes.
Proof. apply byte_loop_from_rol. lia. Qed.

Lemma rotl32_range x n :
  0 <= x < 2 ^ 32 -> 0 <= n <= 32 -> 0 <= rotl32 x n < 2 ^ 32.
Proof.
  intros Hx Hn.
  assert (E : rotl32 x n mod 2 ^ 32 = rotl32 x n).
  { unfold rotl32. rewrite lor_mod32, Z.mod_mod by lia. f_equal.
    apply Z.mod_small. pose proof (shiftr_le x (32 - n)). lia. }
  rewrite <- E. apply Z.mod_pos_bound. lia.
Qed.

(** ** Successful runs of [_parse] *)

Lemma parse_ok_inv file l p :
  _parse file 0 = inr (l, p) ->
  locate file = inr (hdr l) /\ l = locals_of file (hdr l).
Proof.
  intros H. pose proof (parse_run file 0) as P. unfold run in P.
  rewrite H in P. destruct (locate file) as [e|h]; [discriminate|].
  injection P as ->. split; reflexivity.
Qed.

Lemma find_header_ok_parse file h :
  run find_header file 0 = inr h ->
  exists p, _parse file 0 = inr (locals_of file h, p).
Proof.
  rewrite find_header_run. intros H.
  pose proof (parse_run file 0) as P. unfold run in P. rewrite H in P.
  destruct (_parse file 0) as [e|[l q]]; [discriminate|].
  injection P as ->. eauto.
Qed.

Lemma pair_at_range file hc p i :
  0 <= hc < 2 ^ 32 ->
  0 <= fst (pair_at file hc p i) < 2 ^ 32
  /\ 0 <= snd (pair_at file hc p i) < 2 ^ 32.
Proof.
  intros Hhc. unfold pair_at, word_at. cbn [fst snd].
  split; apply lxor_range32; try assumption.
  - destruct (dword_at file (p + 8 * i)) as [w|] eqn:E;
      [eapply dword_at_range; eassumption|].
    change (2 ^ 32) with 4294967296. lia.
  - destruct (dword_at file (p + 8 * i + 4)) as [w|] eqn:E;
      [eapply dword_at_range; eassumption|].
    change (2 ^ 32) with 4294967296. lia.
Qed.

Lemma entry_step_fst st e :
  0 <= fst e < 2 ^ 32 ->
  fst (entry_step st e) = rol_entry_step (fst st) e.
Proof.
  destruct e as [cd uc]. cbn [fst entry_step rol_entry_step]. intros Hcd.
  rewrite add_mask32, rol_expr_mod; [reflexivity|assumption|].
  apply Z.mod_pos_bound. lia.
Qed.

Lemma fold_entry_step_fst :
  forall pairs st,
    Forall (fun e => 0 <= fst e < 2 ^ 32) pairs ->
    fst (fold_left entry_step pairs st)
    = fold_left rol_entry_step pairs (fst st).
Proof.
  induction pairs as [|e pairs IH]; intros st HF; [reflexivity|].
  inversion HF as [|? ? He HF']; subst. cbn [fold_left].
  rewrite IH by assumption. rewrite entry_step_fst by assumption.
  reflexivity.
Qed.

Lemma entry_pairs_range file h :
  locate file = inr h ->
  Forall (fun e => 0 <= fst e < 2 ^ 32) (entry_pairs file h).
Proof.
  intros H. destruct (locate_inv file h H)
    as (w & w80 & _ & _ & _ & _ & _ & Hhc & _).
  apply dword_at_range in Hhc.
  unfold entry_pairs. apply Forall_map. apply Forall_forall.
  intros i _. apply pair_at_range. assumption.
Qed.

(** ** The byte phase of the checksum (C1) *)

(** C1, as stated, fails: on [short_stub_file] the header start is the
    default 0x80 while only [e_lfanew = 0x48] bytes were read into [data],
    so the byte at index 0x48 never reaches the accumulator; the claimed
    sum over the indices below [header_start] is 9233, the code's is 8977. *)
Lemma C1_counterexample :
  exists l p,
    _parse short_stub_file 0 = inr (l, p)
    /\ start_of_header (hdr l) = 0x80
    /\ byte_checksum l = 8977
    /\ rol_accumulate (start_of_header (hdr l))
         (firstn (Z.to_nat (start_of_header (hdr l))) short_stub_file) = 9233
    /\ byte_checksum l
       <> rol_accumulate (start_of_header (hdr l))
            (firstn (Z.to_nat (start_of_header (hdr l))) short_stub_file).
Proof.
  eexists. eexists. split; [vm_compute; reflexivity|].
  repeat split; try (vm_compute; reflexivity).
  vm_compute. discriminate.
Qed.

(** C1, amended: on every input on which [_parse] succeeds, the
    accumulator after the byte loop starts from [header_start] and runs
    over the bytes at the indices below [min header_start lfa_new] in file
    order, unchanged for [0x3C <= i < 0x40] and otherwise increased by the
    32-bit rotate-left of the byte by [i mod 32], modulo [2^32]. *)
Theorem C1_byte_checksum_rol file l p :
  _parse file 0 = inr (l, p) ->
  let upto := Z.min (start_of_header (hdr l)) (lfa_new (hdr l)) in
  byte_checksum l
  = rol_accumulate (start_of_header (hdr l)) (firstn (Z.to_nat upto) file)
  /\ Z.of_nat (length (firstn (Z.to_nat upto) file)) = upto.
Proof.
  intros H upto. apply parse_ok_inv in H. destruct H as [Hl ->].
  set (h := hdr l) in *.
  destruct (locate_inv file h Hl) as (w & w80 & _ & Hlfa & Hdata & _).
  destruct (locate_geometry file h Hl) as (_ & _ & _ & _ & _ & S1 & _ & S3 & _).
  assert (0 <= lfa_new h) by (rewrite Hlfa; apply Z.land_nonneg; lia).
  split.
  - cbn [byte_checksum locals_of hdr]. rewrite byte_loop_rol.
    rewrite Hdata, firstn_firstn. unfold upto. rewrite Z2Nat.inj_min.
    reflexivity.
  - rewrite length_firstn. unfold upto. lia.
Qed.

Lemma C1_witness :
  _parse sample_file 0 = inr (sample_locals, 0xA8)
  /\ byte_checksum sample_locals
     = rol_accumulate (start_of_header (hdr sample_locals))
         (firstn (Z.to_nat (Z.min (start_of_header (hdr sample_locals))
                                  (lfa_new (hdr sample_locals))))
                 sample_file).
Proof.
  assert (E : _parse sample_file 0 = inr (sample_locals, 0xA8))
    by (vm_compute; reflexivity).
  split; [exact E|]. exact (proj1 (C1_byte_checksum_rol _ _ _ E)).
Defined.

(** ** The entry phase of the checksum (C3) *)

(** C3: on every input on which [_parse] succeeds, the final accumulator
    is obtained from the accumulator of the byte loop by adding, for each
    decoded pair in file order, the 32-bit rotate-left of the XOR-decoded
    id word by [use_count mod 32], modulo [2^32] after each addition; the
    pair holds the two words of the entry XORed with the stored checksum. *)
Theorem C3_entry_checksum_rol file l p :
  _parse file 0 = inr (l, p) ->
  checksum l = fold_left rol_entry_step (entry_pairs file (hdr l))
                         (byte_checksum l)
  /\ length (entry_pairs file (hdr l)) = Z.to_nat (total_elements l)
  /\ forall i, (i < length (entry_pairs file (hdr l)))%nat ->
       nth i (entry_pairs file (hdr l)) (0, 0)
       = (Z.lxor (word_at file (start_of_header (hdr l) + 0x10
                                + 8 * Z.of_nat i))
                 (header_checksum (hdr l)),
          Z.lxor (word_at file (start_of_header (hdr l) + 0x10
                                + 8 * Z.of_nat i + 4))
                 (header_checksum (hdr l))).
Proof.
  intros H. apply parse_ok_inv in H. destruct H as [Hl ->].
  set (h := hdr l) in *. cbn [checksum byte_checksum total_elements locals_of].
  split; [|split].
  - rewrite fold_entry_step_fst by (apply entry_pairs_range; assumption).
    reflexivity.
  - unfold entry_pairs. rewrite length_map, length_range. reflexivity.
  - unfold entry_pairs. rewrite length_map, length_range. intros i Hi.
    set (f := pair_at file (header_checksum h) (start_of_header h + 0x10)).
    rewrite (nth_indep _ (0, 0) (f 0)) by (rewrite length_map, length_range; lia).
    rewrite map_nth. unfold range.
    rewrite (nth_indep _ 0 (Z.of_nat 0%nat))
      by (rewrite length_map, length_seq; lia).
    rewrite map_nth, seq_nth by lia. reflexivity.
Qed.

Lemma C3_witness :
  _parse sample_file 0 = inr (sample_locals, 0xA8)
  /\ checksum sample_locals
     = fold_left rol_entry_step (entry_pairs sample_file (hdr sample_locals))
                 (byte_checksum sample_locals).
Proof.
  assert (E : _parse sample_file 0 = inr (sample_locals, 0xA8))
    by (vm_compute; reflexivity).
  split; [exact E|]. exact (proj1 (C3_entry_checksum_rol _ _ _ E)).
Defined.

(** ** Checksum comparison (C4) *)

(** C4: once the header is located, [_parse] returns, whatever the
    recomputed checksum is; the stored checksum is the little-endian word
    at [rich_location + 4], and [checksum_matches] is [true] exactly when
    the final accumulator equals it. *)
Theorem C4_mismatch_is_not_an_error file h :
  run find_header file 0 = inr h ->
  dword_at file (rich_location h + 4) = Some (header_checksum h)
  /\ exists l p,
      _parse file 0 = inr (l, p) /\ hdr l = h
      /\ decode file
         = inr (mk_parser (self_entries l)
                          (checksum l =? header_checksum h))
      /\ (self_checksum_matches l = true <-> checksum l = header_checksum h).
Proof.
  intros H. destruct (find_header_ok_parse file h H) as [p Hp].
  rewrite find_header_run in H.
  destruct (locate_inv file h H) as (w & w80 & _ & _ & _ & _ & _ & Hhc & _).
  split; [assumption|].
  exists (locals_of file h), p. repeat split.
  - assumption.
  - rewrite decode_eq, H. reflexivity.
  - cbn [self_checksum_matches checksum locals_of]. apply Z.eqb_eq.
  - cbn [self_checksum_matches checksum locals_of]. apply Z.eqb_eq.
Qed.

Lemma C4_witness :
  run find_header tampered_file 0
  = inr (mk_header 0xB0 (firstn 0xB0 tampered_file) 0xA8 sample_checksum 0x80)
  /\ dword_at tampered_file (0xA8 + 4) = Some sample_checksum.
Proof.
  assert (E : run find_header tampered_file 0
              = inr (mk_header 0xB0 (firstn 0xB0 tampered_file) 0xA8
                               sample_checksum 0x80))
    by (vm_compute; reflexivity).
  split; [exact E|]. exact (proj1 (C4_mismatch_is_not_an_error _ _ E)).
Defined.

(** A mismatch on a concrete file: the entries decode, the flag is false. *)
Example tampered_file_decodes :
  decode tampered_file
  = inr (mk_parser [(0x0104, mk_entry 0x520D 2); (0x0105, mk_entry 0x7809 4)]
                   false).
Proof. vm_compute. reflexivity. Qed.

Example sample_file_decodes :
  decode sample_file
  = inr (mk_parser [(0x0104, mk_entry 0x520D 2); (0x0105, mk_entry 0x7809 3)]
                   true).
Proof. vm_compute. reflexivity. Qed.

(** ** Header start and "Rich" (C9, C10) *)

(** C9, as stated, fails: on [rich_first_file] "Rich" is at 0x40, the scan
    finds "DanS" at 0x48, and [_parse] returns. *)
Lemma C9_counterexample :
  exists l p,
    _parse rich_first_file 0 = inr (l, p)
    /\ rich_location (hdr l) = 0x40
    /\ start_of_header (hdr l) = 0x48
    /\ ~ start_of_header (hdr l) < rich_location (hdr l).
Proof.
  exists (locals_of rich_first_file rich_first_header), 0x58.
  split; [vm_compute; reflexivity|].
  repeat split. cbn. lia.
Qed.

Lemma entries_nonempty_total file h :
  self_entries (locals_of file h) <> [] ->
  1 <= (rich_location h - start_of_header h - 0x10) / 0x8.
Proof.
  cbn [self_entries locals_of]. unfold entry_pairs, range. intros Hne.
  destruct (Z_le_gt_dec 1 ((rich_location h - start_of_header h - 0x10) / 0x8))
    as [L|L]; [assumption|].
  exfalso. apply Hne.
  replace (Z.to_nat ((rich_location h - start_of_header h - 0x10) / 0x8))
    with 0%nat by lia.
  reflexivity.
Qed.

(** C9, amended: on every input on which [_parse] succeeds with at least
    one entry, the header start is strictly less than the offset of
    "Rich"; the first entry alone puts it 0x18 bytes before. *)
Theorem C9_start_before_rich file l p :
  _parse file 0 = inr (l, p) ->
  self_entries l <> [] ->
  start_of_header (hdr l) + 0x18 <= rich_location (hdr l)
  /\ start_of_header (hdr l) < rich_location (hdr l).
Proof.
  intros H Hne. apply parse_ok_inv in H. destruct H as [_ Hl].
  rewrite Hl in Hne. apply entries_nonempty_total in Hne.
  set (h := hdr l) in *.
  assert (8 * ((rich_location h - start_of_header h - 0x10) / 0x8)
          <= rich_location h - start_of_header h - 0x10)
    by (apply Z.mul_div_le; lia).
  lia.
Qed.

Lemma C9_witness :
  _parse sample_file 0 = inr (sample_locals, 0xA8)
  /\ self_entries sample_locals <> []
  /\ start_of_header (hdr sample_locals) < rich_location (hdr sample_locals).
Proof.
  assert (E : _parse sample_file 0 = inr (sample_locals, 0xA8))
    by (vm_compute; reflexivity).
  assert (N : self_entries sample_locals <> [])
    by (vm_compute; discriminate).
  split; [exact E|]. split; [exact N|].
  exact (proj2 (C9_start_before_rich _ _ _ E N)).
Defined.

(** C10: when "Rich" and a header start are located with fewer than 0x10
    bytes from the header start to "Rich", [decode] returns a result with
    no entries, and [checksum_matches] compares the accumulator of the
    byte loop with the stored checksum. *)
Theorem C10_no_room_for_entries file h :
  run find_header file 0 = inr h ->
  rich_location h < start_of_header h + 0x10 ->
  decode file
  = inr (mk_parser []
           (byte_loop (firstn (Z.to_nat (start_of_header h)) (data h))
                      (start_of_header h)
            =? header_checksum h)).
Proof.
  rewrite find_header_run. intros H Hlt.
  rewrite decode_eq, H. cbn [self_entries self_checksum_matches locals_of].
  unfold entry_pairs, range.
  assert ((rich_location h - start_of_header h - 0x10) / 0x8 < 0)
    by (apply Z.div_lt_upper_bound; lia).
  replace (Z.to_nat ((rich_location h - start_of_header h - 0x10) / 0x8))
    with 0%nat by lia.
  reflexivity.
Qed.

Lemma C10_witness :
  run find_header rich_first_file 0 = inr rich_first_header
  /\ rich_location rich_first_header < start_of_header rich_first_header + 0x10
  /\ decode rich_first_file = inr (mk_parser [] (8921 =? 0x11223344)).
Proof.
  assert (E : run find_header rich_first_file 0 = inr rich_first_header)
    by (vm_compute; reflexivity).
  assert (L : rich_location rich_first_header
              < start_of_header rich_first_header + 0x10)
    by (vm_compute; reflexivity).
  split; [exact E|]. split; [exact L|].
  rewrite (C10_no_room_for_entries _ _ E L). vm_compute. reflexivity.
Defined.

(** ** Truncated input (C7) *)

Lemma locate_short file :
  Z.of_nat (length file) < 0x40 -> locate file = inl struct_error.
Proof.
  intros H. unfold locate. rewrite dword_at_past_end by lia. reflexivity.
Qed.

(** C7: a read past the end of the file raises [struct_error], an
    exception of another kind than [InvalidHeaderError].  [decode] fails
    with it on every file of fewer than 0x40 bytes, [_read_dword] raises it
    at every position with fewer than four bytes left, and the entry loop
    raises it whenever its table of [length idx] entries from position [p]
    does not fit in the file. *)
Theorem C7_truncated_input file :
  (Z.of_nat (length file) < 0x40 -> decode file = inl struct_error)
  /\ (forall p, 0 <= p -> Z.of_nat (length file) < p + 4 ->
                _read_dword file p = inl struct_error)
  /\ (forall hc idx st p,
         0 <= p -> idx <> [] ->
         Z.of_nat (length file) < p + 8 * Z.of_nat (length idx) ->
         entry_loop hc idx st file p = inl struct_error)
  /\ (forall msg, struct_error <> InvalidHeaderError msg).
Proof.
  split; [|split; [|split]].
  - intros H. rewrite decode_eq, locate_short by assumption. reflexivity.
  - intros p Hp H. rewrite read_dword_eq, dword_at_past_end by assumption.
    reflexivity.
  - intros hc idx st p. apply entry_loop_truncated.
  - intros msg. discriminate.
Qed.

Lemma C7_witness :
  decode (firstn 0x3F sample_file) = inl struct_error
  /\ entry_loop sample_checksum (range 3) (385, []) (firstn 0xA0 sample_file)
                0x90
     = inl struct_error.
Proof.
  split.
  - apply (proj1 (C7_truncated_input (firstn 0x3F sample_file))).
    vm_compute. reflexivity.
  - apply (proj1 (proj2 (proj2 (C7_truncated_input (firstn 0xA0 sample_file))))).
    + lia.
    + discriminate.
    + vm_compute. reflexivity.
Defined.

(** ** OrderedDict *)

Section OrderedDictFacts.

Lemma od_get_set_eq d k v : od_get (od_set d k v) k = Some v.
Proof.
  induction d as [|[k' v'] d IH]; cbn [od_set od_get].
  - rewrite Z.eqb_refl. reflexivity.
  - destruct (k' =? k) eqn:E; cbn [od_get].
    + rewrite Z.eqb_refl. reflexivity.
    + rewrite E. assumption.
Qed.

Lemma od_get_set_ne d k v k0 :
  k <> k0 -> od_get (od_set d k v) k0 = od_get d k0.
Proof.
  intros Hne. induction d as [|[k' v'] d IH]; cbn [od_set od_get].
  - apply Z.eqb_neq in Hne. rewrite Hne. reflexivity.
  - destruct (k' =? k) eqn:E; cbn [od_get].
    + apply Z.eqb_eq in E. subst k'.
      apply Z.eqb_neq in Hne. rewrite Hne. reflexivity.
    + rewrite IH. reflexivity.
Qed.

Lemma od_get_set d k v k0 :
  od_get (od_set d k v) k0 = if k =? k0 then Some v else od_get d k0.
Proof.
  destruct (Z.eqb_spec k k0) as [->|Hne];
    [apply od_get_set_eq|apply od_get_set_ne; assumption].
Qed.

Lemma od_keys_set d k v :
  od_keys (od_set d k v)
  = if mem_key (od_keys d) k then od_keys d else od_keys d ++ [k].
Proof.
  unfold od_keys, mem_key.
  induction d as [|[k' v'] d IH]; cbn [od_set map existsb fst app];
    [reflexivity|].
  destruct (k' =? k) eqn:E; cbn [map fst orb].
  - apply Z.eqb_eq in E. subst. reflexivity.
  - rewrite IH. destruct (existsb _ _); reflexivity.
Qed.

Lemma mem_key_In ks k : mem_key ks k = true <-> In k ks.
Proof.
  unfold mem_key. rewrite existsb_exists. split.
  - intros [x [Hx E]]. apply Z.eqb_eq in E. subst. assumption.
  - intros H. exists k. split; [assumption|apply Z.eqb_refl].
Qed.

Lemma od_get_In_keys d k : od_get d k <> None <-> In k (od_keys d).
Proof.
  unfold od_keys. induction d as [|[k' v'] d IH]; cbn [od_get map fst In].
  - tauto.
  - destruct (Z.eqb_spec k' k) as [->|Hne].
    + split; [auto|discriminate].
    + rewrite IH. tauto.
Qed.

Lemma od_set_nodup d k v : NoDup (od_keys d) -> NoDup (od_keys (od_set d k v)).
Proof.
  intros H. rewrite od_keys_set.
  destruct (mem_key (od_keys d) k) eqn:E; [assumption|].
  apply NoDup_app; [assumption|repeat constructor; auto|].
  intros x Hx [<-|[]].
  apply mem_key_In in Hx. congruence.
Qed.

Lemma od_get_In d k v :
  NoDup (od_keys d) -> (od_get d k = Some v <-> In (k, v) d).
Proof.
  unfold od_keys. induction d as [|[k' v'] d IH]; cbn [od_get map fst In];
    intros Hnd.
  - split; [discriminate|tauto].
  - inversion Hnd as [|? ? Hnotin Hnd']; subst.
    destruct (Z.eqb_spec k' k) as [->|Hne].
    + split.
      * intros H. injection H as ->. auto.
      * intros [H|H]; [congruence|].
        exfalso. apply Hnotin. apply (in_map fst) in H. exact H.
    + rewrite IH by assumption. split; [auto|].
      intros [H|H]; [congruence|assumption].
Qed.

End OrderedDictFacts.

(** ** The entries mapping built by the loop (C2) *)

Lemma fold_entry_step_snd :
  forall pairs st,
    snd (fold_left entry_step pairs st)
    = fold_left od_insert (map item_of_pair pairs) (snd st).
Proof.
  induction pairs as [|[cd uc] pairs IH]; intros st; [reflexivity|].
  cbn [fold_left map]. rewrite IH. reflexivity.
Qed.

Lemma filter_twice {A} (f g : A -> bool) l :
  filter f (filter g l) = filter (fun x => g x && f x) l.
Proof.
  induction l as [|x l IH]; [reflexivity|]. cbn [filter].
  destruct (g x); cbn [filter andb]; [destruct (f x)|]; congruence.
Qed.

(** Values: the last item stored under a key wins. *)
Lemma od_get_fold :
  forall items d k,
    od_get (fold_left od_insert items d) k
    = match last_value items k with
      | Some v => Some v
      | None => od_get d k
      end.
Proof.
  induction items as [|[k' v] items IH]; intros d k; [reflexivity|].
  cbn [fold_left last_value]. rewrite IH. unfold od_insert. cbn [fst snd].
  rewrite od_get_set.
  destruct (last_value items k); [reflexivity|].
  destruct (k' =? k); reflexivity.
Qed.

(** Keys: a key stays where it was first inserted. *)
Lemma od_keys_fold :
  forall items d,
    od_keys (fold_left od_insert items d)
    = od_keys d
      ++ filter (fun k => negb (mem_key (od_keys d) k))
                (first_seen (map fst items)).
Proof.
  induction items as [|[k v] items IH]; intros d.
  - cbn. rewrite app_nil_r. reflexivity.
  - cbn [fold_left map fst first_seen filter]. rewrite IH.
    unfold od_insert. cbn [fst snd]. rewrite od_keys_set.
    destruct (mem_key (od_keys d) k) eqn:E; cbn [negb].
    + f_equal. rewrite filter_twice. apply filter_ext. intros x.
      destruct (Z.eqb_spec x k) as [->|Hne]; [rewrite E|]; reflexivity.
    + rewrite <- app_assoc. cbn [app]. do 2 f_equal.
      rewrite filter_twice. apply filter_ext. intros x.
      unfold mem_key. rewrite existsb_app. cbn [existsb].
      rewrite orb_false_r, negb_orb, andb_comm, (Z.eqb_sym k x).
      reflexivity.
Qed.

Lemma od_nodup_fold :
  forall items d,
    NoDup (od_keys d) -> NoDup (od_keys (fold_left od_insert items d)).
Proof.
  induction items as [|[k v] items IH]; intros d H; [assumption|].
  cbn [fold_left]. apply IH. apply od_set_nodup. assumption.
Qed.

Lemma item_of_pair_at file hc start i :
  item_of_pair (pair_at file hc (start + 0x10) i)
  = decode_entry hc (word_at file (start + 0x10 + 8 * i))
                 (word_at file (start + 0x10 + 8 * i + 4)).
Proof. reflexivity. Qed.

Lemma self_entries_table file h :
  self_entries (locals_of file h)
  = fold_left od_insert
      (table_entries file (start_of_header h) (header_checksum h)
         ((rich_location h - start_of_header h - 0x10) / 0x8)) [].
Proof.
  cbn [self_entries locals_of]. rewrite fold_entry_step_snd.
  unfold entry_pairs, table_entries. rewrite map_map. reflexivity.
Qed.

(** The keys of a decoded result are distinct. *)
Lemma decode_nodup file r :
  decode file = inr r -> NoDup (od_keys (entries r)).
Proof.
  rewrite decode_eq. destruct (locate file) as [e|h]; [discriminate|].
  intros H.
  replace (entries r) with (self_entries (locals_of file h))
    by (injection H as <-; reflexivity).
  rewrite self_entries_table. apply od_nodup_fold. constructor.
Qed.

(** C2: on every successful run with at least 0x10 bytes from the header
    start to "Rich", the table read from [header_start + 0x10] has exactly
    [(rich_location - header_start - 0x10) / 8] entries, each decoded as
    [tool_id = (w1 XOR checksum) >> 16], [build_version = (w1 XOR
    checksum) & 0xFFFF], [use_count = w2 XOR checksum]; the keys of the
    entries mapping are the tool ids in order of first occurrence in the
    file, and each key holds the pair of its last entry. *)
Theorem C2_entries_mapping file l p :
  _parse file 0 = inr (l, p) ->
  start_of_header (hdr l) + 0x10 <= rich_location (hdr l) ->
  let n := (rich_location (hdr l) - start_of_header (hdr l) - 0x10) / 8 in
  let table := table_entries file (start_of_header (hdr l))
                             (header_checksum (hdr l)) n in
  Z.of_nat (length table) = n
  /\ start_of_header (hdr l) + 0x10 + 8 * n <= rich_location (hdr l)
     <= Z.of_nat (length file) - 8
  /\ od_keys (self_entries l) = first_seen (map fst table)
  /\ forall k, od_get (self_entries l) k = last_value table k.
Proof.
  intros H Hroom n table. apply parse_ok_inv in H. destruct H as [Hloc Hl].
  set (h := hdr l) in *.
  assert (Hn : 0 <= n) by (apply Z.div_pos; lia).
  split; [|split; [|split]].
  - unfold table, table_entries. rewrite length_map, length_range. lia.
  - destruct (locate_geometry file h Hloc) as (_ & _ & R3 & _).
    assert (8 * n <= rich_location h - start_of_header h - 0x10)
      by (apply Z.mul_div_le; lia).
    lia.
  - rewrite Hl, self_entries_table, od_keys_fold. cbn [od_keys map app].
    fold n. fold table. rewrite (filter_ext _ (fun _ => true)) by reflexivity.
    induction (first_seen (map fst table)) as [|x xs IH]; [reflexivity|].
    cbn [filter]. congruence.
  - intros k. rewrite Hl, self_entries_table, od_get_fold. fold n. fold table.
    destruct (last_value table k); reflexivity.
Qed.

Lemma C2_witness :
  _parse sample_file 0 = inr (sample_locals, 0xA8)
  /\ start_of_header (hdr sample_locals) + 0x10
     <= rich_location (hdr sample_locals)
  /\ od_keys (self_entries sample_locals)
     = first_seen (map fst (table_entries sample_file 0x80 sample_checksum 3)).
Proof.
  assert (E : _parse sample_file 0 = inr (sample_locals, 0xA8))
    by (vm_compute; reflexivity).
  assert (L : start_of_header (hdr sample_locals) + 0x10
              <= rich_location (hdr sample_locals))
    by (vm_compute; discriminate).
  split; [exact E|]. split; [exact L|].
  exact (proj1 (proj2 (proj2 (C2_entries_mapping _ _ _ E L)))).
Defined.

(** ** Equality of results (C8) *)

Lemma entry_eqb_eq v w : entry_eqb v w = true <-> v = w.
Proof.
  destruct v as [bv uc], w as [bv' uc']. unfold entry_eqb.
  cbn [build_version used_count].
  rewrite andb_true_iff, !Z.eqb_eq. split.
  - intros [-> ->]. reflexivity.
  - intros H. injection H as -> ->. auto.
Qed.

Lemma eq_items_spec items other :
  eq_items items other = true
  <-> forall k v, In (k, v) items -> od_get other k = Some v.
Proof.
  induction items as [|[k v] items IH]; cbn [eq_items In].
  - split; [intros _ k v []|reflexivity].
  - destruct (od_get other k) as [v'|] eqn:E.
    + destruct (entry_eqb v v') eqn:Ev; cbn [negb].
      * apply entry_eqb_eq in Ev. subst v'. rewrite IH. split.
        -- intros H k0 v0 [H0|H0]; [congruence|auto].
        -- intros H k0 v0 H0. apply H. auto.
      * split; [discriminate|]. intros H.
        specialize (H k v (or_introl eq_refl)).
        rewrite E in H. injection H as ->.
        assert (entry_eqb v v = true) by (apply entry_eqb_eq; reflexivity).
        congruence.
    + split; [discriminate|]. intros H.
      specialize (H k v (or_introl eq_refl)). congruence.
Qed.

Lemma eq_unfold self other :
  __eq__ self other = true
  <-> length (entries self) = length (entries other)
      /\ eq_items (entries self) (entries other) = true
      /\ checksum_matches self = checksum_matches other.
Proof.
  unfold __eq__.
  destruct (Nat.eqb_spec (length (entries self)) (length (entries other)))
    as [L|L]; cbn [negb].
  - destruct (eq_items (entries self) (entries other)); cbn [negb].
    + rewrite Bool.eqb_true_iff. tauto.
    + split; [discriminate|intros (_ & H & _); discriminate].
  - split; [discriminate|tauto].
Qed.

(** C8: for results whose keys are distinct, as those of a dict are,
    [__eq__] holds exactly when both have the same number of entries, each
    tool id of one is in the other with the same pair, and the
    [checksum_matches] flags agree; results with the same items in another
    insertion order are equal, and a different [used_count] under one
    tool id makes them unequal. *)
Theorem C8_eq_characterisation (self other : PERichHeaderParser) :
  NoDup (od_keys (entries self)) ->
  NoDup (od_keys (entries other)) ->
  (__eq__ self other = true
   <-> length (entries self) = length (entries other)
       /\ (forall k v, od_get (entries self) k = Some v ->
                       od_get (entries other) k = Some v)
       /\ (forall k v, od_get (entries other) k = Some v ->
                       od_get (entries self) k = Some v)
       /\ checksum_matches self = checksum_matches other)
  /\ (Permutation (entries self) (entries other) ->
      checksum_matches self = checksum_matches other ->
      __eq__ self other = true)
  /\ (forall k v w,
         od_get (entries self) k = Some v ->
         od_get (entries other) k = Some w ->
         used_count v <> used_count w ->
         __eq__ self other = false).
Proof.
  intros Hs Ho.
  assert (Hfwd : __eq__ self other = true ->
                 forall k v, od_get (entries self) k = Some v ->
                             od_get (entries other) k = Some v).
  { intros H k v Hk. apply eq_unfold in H. destruct H as (_ & H & _).
    rewrite eq_items_spec in H. apply H. apply od_get_In; assumption. }
  assert (Hiff : __eq__ self other = true
     <-> length (entries self) = length (entries other)
         /\ (forall k v, od_get (entries self) k = Some v ->
                         od_get (entries other) k = Some v)
         /\ (forall k v, od_get (entries other) k = Some v ->
                         od_get (entries self) k = Some v)
         /\ checksum_matches self = checksum_matches other).
  { split.
    - intros H. pose proof (Hfwd H) as F.
      apply eq_unfold in H. destruct H as (L & _ & C).
      repeat split; try assumption.
      intros k v Hk.
      assert (Hin : In k (od_keys (entries self))).
      { apply (@NoDup_length_incl Z (od_keys (entries self))
                 (od_keys (entries other)) Hs).
        - unfold od_keys. rewrite !length_map. lia.
        - intros x Hx. apply od_get_In_keys in Hx.
          destruct (od_get (entries self) x) as [vx|] eqn:Ex; [|contradiction].
          apply od_get_In_keys. rewrite (F x vx Ex). discriminate.
        - apply od_get_In_keys. rewrite Hk. discriminate. }
      apply od_get_In_keys in Hin.
      destruct (od_get (entries self) k) as [v'|] eqn:E; [|contradiction].
      apply F in E. congruence.
    - intros (L & F & _ & C). apply eq_unfold. repeat split; try assumption.
      apply eq_items_spec. intros k v Hin. apply F.
      apply od_get_In; assumption. }
  split; [exact Hiff|split].
  - intros P C. apply Hiff. repeat split.
    + apply Permutation_length. assumption.
    + intros k v Hk. apply od_get_In; [assumption|].
      apply (Permutation_in _ P). apply od_get_In; assumption.
    + intros k v Hk. apply od_get_In; [assumption|].
      apply (Permutation_in _ (Permutation_sym P)).
      apply od_get_In; assumption.
    + assumption.
  - intros k v w Hv Hw Hne.
    destruct (__eq__ self other) eqn:E; [|reflexivity].
    apply (Hfwd eq_refl) in Hv. congruence.
Qed.

Lemma C8_witness :
  NoDup (od_keys (entries result_a))
  /\ NoDup (od_keys (entries result_b))
  /\ __eq__ result_a result_b = true
  /\ __eq__ result_a result_c = false.
Proof.
  assert (Na : NoDup (od_keys (entries result_a))).
  { repeat constructor; cbn; intuition discriminate. }
  assert (Nb : NoDup (od_keys (entries result_b))).
  { repeat constructor; cbn; intuition discriminate. }
  assert (Nc : NoDup (od_keys (entries result_c))).
  { repeat constructor; cbn; intuition discriminate. }
  split; [exact Na|]. split; [exact Nb|]. split.
  - apply (proj1 (proj2 (C8_eq_characterisation result_a result_b Na Nb))).
    + apply perm_swap.
    + reflexivity.
  - apply (proj2 (proj2 (C8_eq_characterisation result_a result_c Na Nc))
             0x0105 (mk_entry 0x7809 3) (mk_entry 0x7809 4)).
    + reflexivity.
    + reflexivity.
    + cbn. discriminate.
Defined.

(** ** Locating the header (C5, C6) *)

Lemma first_dans_found_Z file hc n s :
  s <> 0 ->
  (first_dans file hc (Z.to_nat n) 0x40 = inr s
   <-> exists i, 0 <= i < n /\ s = 0x40 + 4 * i
                 /\ dans_at file hc s = true
                 /\ forall j, 0 <= j < i ->
                              dans_at file hc (0x40 + 4 * j) = false).
Proof.
  intros Hs. rewrite first_dans_found by (try assumption; lia). split.
  - intros (i & Hi & -> & Hd & Hj). exists (Z.of_nat i).
    repeat split; try assumption; try lia.
    intros j Hjr. specialize (Hj (Z.to_nat j)).
    rewrite Z2Nat.id in Hj by lia. apply Hj. lia.
  - intros (i & Hi & -> & Hd & Hj). exists (Z.to_nat i).
    rewrite Z2Nat.id by lia. repeat split; try assumption; try lia.
    intros j Hjr. apply Hj. lia.
Qed.

Lemma first_dans_none_Z file hc n :
  first_dans file hc (Z.to_nat n) 0x40 = inr 0
  <-> forall i, 0 <= i < n ->
                0x40 + 4 * i + 4 <= Z.of_nat (length file)
                /\ dans_at file hc (0x40 + 4 * i) = false.
Proof.
  rewrite first_dans_none by lia. split.
  - intros H i Hi. destruct (H (Z.to_nat i)) as (w & Hw & Hne); [lia|].
    rewrite Z2Nat.id in Hw by lia. split.
    + apply dword_at_Some_bound in Hw; lia.
    + unfold dans_at. rewrite Hw. apply Z.eqb_neq. assumption.
  - intros H j Hj. destruct (H (Z.of_nat j)) as [Hb Hd]; [lia|].
    destruct (dword_at_in_bounds file (0x40 + 4 * Z.of_nat j)) as [w Hw];
      [lia|lia|].
    exists w. split; [assumption|].
    unfold dans_at in Hd. rewrite Hw in Hd. apply Z.eqb_neq. assumption.
Qed.

Lemma word_at_Some file p w : dword_at file p = Some w -> word_at file p = w.
Proof. unfold word_at. intros ->. reflexivity. Qed.

Lemma decode_invalid_iff file :
  (exists msg, decode file = inl (InvalidHeaderError msg))
  <-> exists msg, locate file = inl (InvalidHeaderError msg).
Proof.
  rewrite decode_eq. destruct (locate file) as [e|h].
  - split; intros [msg H]; exists msg; congruence.
  - split; intros [msg H]; discriminate.
Qed.

(** C5, as stated, fails in both directions.  [truncated_file] holds
    "Rich" at 0x40 and no candidate offset (0x80, 0x40, 0x44) decodes to
    "DanS", yet the read at 0x80 finds no bytes and [decode] raises
    [struct_error], not [InvalidHeaderError].  In [unaligned_file]
    ([lfa_new = 0x42]) the aligned offset 0x40 in [0x40, lfa_new) decodes
    to "DanS", yet [decode] raises [InvalidHeaderError]. *)
Lemma C5_counterexample :
  (bytes_find (firstn (Z.to_nat (lfa_of truncated_file)) truncated_file) Rich
   = 0x40
   /\ spec_candidates (lfa_of truncated_file) = [0x80; 0x40; 0x44]
   /\ spec_header_not_found truncated_file = true
   /\ decode truncated_file = inl struct_error)
  /\ (spec_candidates (lfa_of unaligned_file) = [0x80; 0x40]
      /\ spec_header_not_found unaligned_file = false
      /\ decode unaligned_file
         = inl (InvalidHeaderError "Could not find start of Rich header")).
Proof. repeat split; vm_compute; reflexivity. Qed.

(** C5, amended: [decode] fails with [InvalidHeaderError], an exception
    of another kind than [struct_error], if and only if the file has at
    least 0x40 bytes and either "Rich" does not occur in its first
    [lfa_new] bytes, or "Rich" is found, the stored checksum and the word
    at 0x80 can be read, the word at 0x80 does not decode to "DanS", and
    every scanned word, at [0x40 + 4 i] for [i < (lfa_new - 0x40) / 4],
    can be read and does not decode to "DanS". *)
Theorem C5_header_not_found file :
  let lfa := lfa_of file in
  let rich := bytes_find (firstn (Z.to_nat lfa) file) Rich in
  let hc := word_at file (rich + 4) in
  ((exists msg, decode file = inl (InvalidHeaderError msg))
   <-> 0x40 <= Z.of_nat (length file)
       /\ ((forall k, occurs_at Rich (firstn (Z.to_nat lfa) file) k = false)
           \/ (rich <> -1
               /\ rich + 8 <= Z.of_nat (length file)
               /\ 0x84 <= Z.of_nat (length file)
               /\ dans_at file hc 0x80 = false
               /\ forall i, 0 <= i < (lfa - 0x40) / 4 ->
                    0x40 + 4 * i + 4 <= Z.of_nat (length file)
                    /\ dans_at file hc (0x40 + 4 * i) = false)))
  /\ forall msg, InvalidHeaderError msg <> struct_error.
Proof.
  intros lfa rich hc. split; [|discriminate].
  rewrite decode_invalid_iff. rewrite <- bytes_find_absent. fold rich.
  unfold locate.
  destruct (dword_at file 0x3C) as [w|] eqn:E3c.
  2:{ split; [intros [msg H]; discriminate|]. intros [Hlen _].
      destruct (dword_at_in_bounds file 0x3C) as [w Hw]; [lia|lia|].
      congruence. }
  assert (Hlen : 0x40 <= Z.of_nat (length file))
    by (apply dword_at_Some_bound in E3c; lia).
  assert (Hlfa : Z.land w 0xFFFF = lfa)
    by (unfold lfa, lfa_of; rewrite (word_at_Some _ _ _ E3c); reflexivity).
  rewrite Hlfa. fold rich.
  destruct (Z.eqb_spec rich (-1)) as [Er|Er].
  { split; [intros _; auto|intros _; eauto]. }
  assert (Hr : 0 <= rich) by (apply bytes_find_found; assumption).
  destruct (dword_at file (rich + 0x4)) as [hc'|] eqn:Ehc.
  2:{ split; [intros [msg H]; discriminate|].
      intros [_ [H|(_ & H & _)]]; [contradiction|].
      destruct (dword_at_in_bounds file (rich + 4)) as [x Hx]; [lia|lia|].
      congruence. }
  assert (Hhc : hc' = hc)
    by (unfold hc; rewrite (word_at_Some _ _ _ Ehc); reflexivity).
  subst hc'.
  assert (Hrlen : rich + 8 <= Z.of_nat (length file))
    by (apply dword_at_Some_bound in Ehc; lia).
  destruct (dword_at file 0x80) as [w80|] eqn:E80.
  2:{ split; [intros [msg H]; discriminate|].
      intros [_ [H|(_ & _ & H & _)]]; [contradiction|].
      destruct (dword_at_in_bounds file 0x80) as [x Hx]; [lia|lia|].
      congruence. }
  assert (H80 : 0x84 <= Z.of_nat (length file))
    by (apply dword_at_Some_bound in E80; lia).
  assert (Hd80 : dans_at file hc 0x80 = (Z.lxor w80 hc =? DanS))
    by (unfold dans_at; rewrite E80; reflexivity).
  rewrite Hd80.
  destruct (Z.lxor w80 hc =? DanS); cbn [negb].
  { change (0x80 =? 0) with false. cbv iota.
    split; [intros [msg H]; discriminate|].
    intros [_ [H|(_ & _ & _ & H & _)]]; [contradiction|discriminate]. }
  rewrite <- first_dans_none_Z.
  destruct (first_dans file hc (Z.to_nat ((lfa - 0x40) / 0x4)) 0x40)
    as [e|s] eqn:Es.
  { apply first_dans_error in Es. subst e.
    split; [intros [msg H]; discriminate|].
    intros [_ [H|(_ & _ & _ & _ & H)]]; [contradiction|discriminate]. }
  destruct (Z.eqb_spec s 0) as [->|Hs].
  - split; [intros _|intros _; eauto].
    split; [assumption|]. right. repeat split; auto.
  - split; [intros [msg H]; discriminate|].
    intros [_ [H|(_ & _ & _ & _ & H)]]; [contradiction|].
    injection H as H. contradiction.
Qed.

(** C6, as stated, fails.  In [unaligned_file] [lfa_new] is 0x42, the
    word at 0x80 does not decode, and the aligned offset 0x40, strictly
    below [lfa_new], decodes to "DanS"; the loop of line 70 runs
    [(0x42 - 0x40) // 4 = 0] times and [decode] raises
    [InvalidHeaderError].  In [truncated_dans_file] the first aligned
    offset that decodes is 0x40 as well, but the read at 0x80 comes first,
    finds no bytes, and [decode] raises [struct_error]. *)
Lemma C6_counterexample :
  (lfa_of unaligned_file = 0x42
   /\ dans_at unaligned_file 0x11223344 0x80 = false
   /\ dans_at unaligned_file 0x11223344 0x40 = true
   /\ spec_header_start unaligned_file = Some 0x40
   /\ decode unaligned_file
      = inl (InvalidHeaderError "Could not find start of Rich header"))
  /\ (lfa_of truncated_dans_file = 0x50
      /\ spec_header_start truncated_dans_file = Some 0x40
      /\ decode truncated_dans_file = inl struct_error).
Proof. repeat split; vm_compute; reflexivity. Qed.

(** C6, amended: [lfa_new] is the little-endian word at 0x3C masked to
    16 bits, and on every file in which "Rich" is found and the stored
    checksum and the word at 0x80 can be read, the header search returns
    the start [s] exactly when [s] is 0x80 and the word there XOR the
    stored checksum is "DanS", or that word is not and [s] is the first
    offset [0x40 + 4 i], [i < (lfa_new - 0x40) / 4] (the whole word
    lies below [lfa_new]), whose word XOR the stored checksum is "DanS". *)
Theorem C6_header_start file :
  let lfa := lfa_of file in
  let rich := bytes_find (firstn (Z.to_nat lfa) file) Rich in
  let hc := word_at file (rich + 4) in
  rich <> -1 ->
  rich + 8 <= Z.of_nat (length file) ->
  0x84 <= Z.of_nat (length file) ->
  forall s,
    (exists h, run find_header file 0 = inr h
               /\ lfa_new h = lfa /\ rich_location h = rich
               /\ header_checksum h = hc /\ start_of_header h = s)
    <-> (dans_at file hc 0x80 = true /\ s = 0x80)
        \/ (dans_at file hc 0x80 = false
            /\ exists i, 0 <= i < (lfa - 0x40) / 4
                         /\ s = 0x40 + 4 * i
                         /\ dans_at file hc s = true
                         /\ forall j, 0 <= j < i ->
                              dans_at file hc (0x40 + 4 * j) = false).
Proof.
  intros lfa rich hc Hrich Hrlen H80 s.
  assert (Hr : 0 <= rich) by (apply bytes_find_found; assumption).
  destruct (dword_at_in_bounds file 0x3C) as [w E3c]; [lia|lia|].
  destruct (dword_at_in_bounds file (rich + 4)) as [hc' Ehc]; [lia|lia|].
  destruct (dword_at_in_bounds file 0x80) as [w80 E80]; [lia|lia|].
  assert (Hlfa : Z.land w 0xFFFF = lfa)
    by (unfold lfa, lfa_of; rewrite (word_at_Some _ _ _ E3c); reflexivity).
  assert (Hhc : hc' = hc)
    by (unfold hc; rewrite (word_at_Some _ _ _ Ehc); reflexivity).
  subst hc'.
  assert (Hd80 : dans_at file hc 0x80 = (Z.lxor w80 hc =? DanS))
    by (unfold dans_at; rewrite E80; reflexivity).
  rewrite find_header_run. unfold locate. rewrite E3c, Hlfa. fold rich.
  apply Z.eqb_neq in Hrich. rewrite Hrich.
  change (rich + 0x4) with (rich + 4). rewrite Ehc, E80, Hd80.
  destruct (Z.lxor w80 hc =? DanS); cbn [negb].
  - change (0x80 =? 0) with false. cbv iota. split.
    + intros (h & H & _ & _ & _ & Hs). injection H as <-.
      cbn [start_of_header] in Hs. auto.
    + intros [[_ ->]|[H _]]; [|discriminate].
      eexists. split; [reflexivity|]. repeat split.
  - destruct (first_dans file hc (Z.to_nat ((lfa - 0x40) / 0x4)) 0x40)
      as [e|s'] eqn:Es.
    + split; [intros (h & H & _); discriminate|].
      intros [[H _]|[_ Hex]]; [discriminate|]. exfalso.
      assert (Hs : s <> 0) by (destruct Hex as (i & Hi & -> & _); lia).
      apply (first_dans_found_Z file hc ((lfa - 0x40) / 4) s Hs) in Hex.
      congruence.
    + destruct (Z.eqb_spec s' 0) as [->|Hs'].
      * split; [intros (h & H & _); discriminate|].
        intros [[H _]|[_ Hex]]; [discriminate|]. exfalso.
        assert (Hs : s <> 0) by (destruct Hex as (i & Hi & -> & _); lia).
        apply (first_dans_found_Z file hc ((lfa - 0x40) / 4) s Hs) in Hex.
        congruence.
      * split.
        -- intros (h & H & _ & _ & _ & Hs). injection H as <-.
           cbn [start_of_header] in Hs. subst s'. right.
           split; [reflexivity|].
           apply (first_dans_found_Z file hc ((lfa - 0x40) / 4) s Hs').
           assumption.
        -- intros [[H _]|[_ Hex]]; [discriminate|].
           assert (Hs : s <> 0) by (destruct Hex as (i & Hi & -> & _); lia).
           apply (first_dans_found_Z file hc ((lfa - 0x40) / 4) s Hs) in Hex.
           assert (s' = s) by congruence. subst s'.
           eexists. split; [reflexivity|]. repeat split.
Qed.

Lemma C6_witness :
  bytes_find (firstn (Z.to_nat (lfa_of rich_first_file)) rich_first_file) Rich
  <> -1
  /\ 0x84 <= Z.of_nat (length rich_first_file)
  /\ exists h, run find_header rich_first_file 0 = inr h
               /\ lfa_new h = lfa_of rich_first_file
               /\ rich_location h = 0x40
               /\ header_checksum h = 0x11223344
               /\ start_of_header h = 0x48.
Proof.
  assert (R : bytes_find (firstn (Z.to_nat (lfa_of rich_first_file))
                                 rich_first_file) Rich <> -1)
    by (vm_compute; discriminate).
  assert (L1 : bytes_find (firstn (Z.to_nat (lfa_of rich_first_file))
                                  rich_first_file) Rich + 8
               <= Z.of_nat (length rich_first_file))
    by (vm_compute; discriminate).
  assert (L2 : 0x84 <= Z.of_nat (length rich_first_file))
    by (vm_compute; discriminate).
  split; [exact R|]. split; [exact L2|].
  apply (proj2 (C6_header_start rich_first_file R L1 L2 0x48)).
  right. split; [vm_compute; reflexivity|].
  exists 2. repeat split; try (vm_compute; reflexivity); try lia.
  intros j Hj. assert (j = 0 \/ j = 1) as [-> | ->] by lia;
    vm_compute; reflexivity.
Defined.

(** * Further properties of the parser *)

(** ** [_read_dword] *)

Lemma skipn_chunk4 (file : list byte) (p : nat) b0 b1 b2 b3 :
  firstn 4 (skipn p file) = [b0; b1; b2; b3] ->
  nth p file x00 = b0 /\ nth (p + 1) file x00 = b1
  /\ nth (p + 2) file x00 = b2 /\ nth (p + 3) file x00 = b3.
Proof.
  intros H.
  assert (Hn : forall k, nth (p + k) file x00 = nth k (skipn p file) x00).
  { intros k. rewrite <- (firstn_skipn p file) at 1.
    assert (Hl : length (firstn p file) = p).
    { apply firstn_length_le.
      destruct (Nat.le_gt_cases p (length file)) as [L|L]; [assumption|].
      rewrite skipn_all2 in H by lia. discriminate. }
    rewrite app_nth2 by lia. rewrite Hl. f_equal. lia. }
  destruct (skipn p file) as [|c0 [|c1 [|c2 [|c3 rest]]]] eqn:E;
    try discriminate.
  injection H as -> -> -> ->.
  rewrite <- (Nat.add_0_r p) at 1. rewrite !Hn. repeat split.
Qed.

(** X1: at a position with four bytes left, [_read_dword] returns a
    value below [2^32] whose [k]-th base-256 digit is the byte at
    [p + k] (little-endian), and moves the position by four; with fewer
    than four bytes left it raises [struct_error]. *)
Theorem X1_read_dword_little_endian file p :
  0 <= p ->
  (p + 4 <= Z.of_nat (length file) ->
   exists w,
     _read_dword file p = inr (w, p + 4)
     /\ 0 <= w < 2 ^ 32
     /\ forall k, 0 <= k < 4 ->
          (w / 256 ^ k) mod 256
          = byte_val (nth (Z.to_nat (p + k)) file x00))
  /\ (Z.of_nat (length file) < p + 4 ->
      _read_dword file p = inl struct_error).
Proof.
  intros Hp. split.
  - intros Hlen. destruct (dword_at_in_bounds file p Hp Hlen) as [w Hw].
    exists w. rewrite read_dword_eq, Hw. split; [reflexivity|].
    split; [eapply dword_at_range; eassumption|].
    unfold dword_at in Hw.
    destruct (firstn 4 (skipn (Z.to_nat p) file))
      as [|b0 [|b1 [|b2 [|b3 [|b4 rest]]]]] eqn:E; try discriminate.
    cbn [unpack_I] in Hw. injection Hw as <-.
    apply skipn_chunk4 in E. destruct E as (E0 & E1 & E2 & E3).
    pose proof (byte_val_range b0). pose proof (byte_val_range b1).
    pose proof (byte_val_range b2). pose proof (byte_val_range b3).
    change (2 ^ 8) with 256. change (2 ^ 16) with 65536.
    change (2 ^ 24) with 16777216.
    intros k Hk.
    assert (k = 0 \/ k = 1 \/ k = 2 \/ k = 3) as [-> | [-> | [-> | ->]]]
      by lia.
    + rewrite Z.add_0_r, E0. change (256 ^ 0) with 1.
      Z.div_mod_to_equations. lia.
    + replace (Z.to_nat (p + 1)) with (Z.to_nat p + 1)%nat by lia.
      rewrite E1. change (256 ^ 1) with 256.
      Z.div_mod_to_equations. lia.
    + replace (Z.to_nat (p + 2)) with (Z.to_nat p + 2)%nat by lia.
      rewrite E2. change (256 ^ 2) with 65536.
      Z.div_mod_to_equations. lia.
    + replace (Z.to_nat (p + 3)) with (Z.to_nat p + 3)%nat by lia.
      rewrite E3. change (256 ^ 3) with 16777216.
      Z.div_mod_to_equations. lia.
  - intros Hlen. rewrite read_dword_eq, dword_at_past_end by assumption.
    reflexivity.
Qed.

Lemma X1_witness :
  0 <= 0x3C
  /\ exists w, _read_dword sample_file 0x3C = inr (w, 0x3C + 4)
               /\ 0 <= w < 2 ^ 32.
Proof.
  assert (P : 0 <= 0x3C) by lia.
  assert (L : 0x3C + 4 <= Z.of_nat (length sample_file))
    by (vm_compute; discriminate).
  split; [exact P|].
  destruct (proj1 (X1_read_dword_little_endian sample_file 0x3C P) L)
    as (w & H1 & H2 & _).
  exists w. split; assumption.
Defined.

(** ** What a successful run guarantees *)

Lemma land_range16 x : 0 <= Z.land x 0xFFFF < 2 ^ 16.
Proof.
  change 0xFFFF with (Z.ones 16). rewrite Z.land_ones by lia.
  apply Z.mod_pos_bound. lia.
Qed.

Lemma mask32_range x : 0 <= Z.land x 0xFFFFFFFF < 2 ^ 32.
Proof. rewrite mask32. apply Z.mod_pos_bound. lia. Qed.

Lemma byte_step_range acc ix :
  0 <= acc < 2 ^ 32 -> 0 <= byte_step acc ix < 2 ^ 32.
Proof.
  intros H. destruct ix as [i x]. unfold byte_step.
  destruct ((0x3c <=? i) && (i <? 0x40)); [assumption|apply mask32_range].
Qed.

Lemma byte_fold_range bytes :
  forall i init,
    0 <= init < 2 ^ 32 ->
    0 <= fold_left byte_step (enumerate_from i bytes) init < 2 ^ 32.
Proof.
  induction bytes as [|x bytes IH]; intros i init H; [assumption|].
  cbn [enumerate_from fold_left]. apply IH. apply byte_step_range. assumption.
Qed.

Lemma byte_loop_range bytes init :
  0 <= init < 2 ^ 32 -> 0 <= byte_loop bytes init < 2 ^ 32.
Proof. apply byte_fold_range. Qed.

Lemma entry_fold_range pairs :
  forall st,
    0 <= fst st < 2 ^ 32 ->
    0 <= fst (fold_left entry_step pairs st) < 2 ^ 32.
Proof.
  induction pairs as [|[cd uc] pairs IH]; intros st H; [assumption|].
  cbn [fold_left]. apply IH. cbn [entry_step fst]. apply mask32_range.
Qed.

(** X2: on every successful run, [lfa_new] fits in 16 bits, "Rich" and
    its four bytes lie in the first [lfa_new] bytes and the checksum word
    after it in the file, the header start is 0x80 or a multiple of four
    from 0x40 whose word lies below [lfa_new], and the stored checksum and
    both accumulators are 32-bit values. *)
Theorem X2_header_geometry file l p :
  _parse file 0 = inr (l, p) ->
  let h := hdr l in
  0 <= lfa_new h <= 0xFFFF
  /\ 0 <= rich_location h
  /\ rich_location h + 4 <= lfa_new h
  /\ rich_location h + 8 <= Z.of_nat (length file)
  /\ (start_of_header h = 0x80
      \/ (0x40 <= start_of_header h
          /\ start_of_header h mod 4 = 0
          /\ start_of_header h + 4 <= lfa_new h))
  /\ start_of_header h + 4 <= Z.of_nat (length file)
  /\ 0 <= header_checksum h < 2 ^ 32
  /\ 0 <= byte_checksum l < 2 ^ 32
  /\ 0 <= checksum l < 2 ^ 32.
Proof.
  intros H h. apply parse_ok_inv in H. destruct H as [Hloc Hl]. fold h in Hloc, Hl.
  destruct (locate_inv file h Hloc)
    as (w & w80 & _ & Hlfa & _ & _ & _ & Hhc & _ & Hstart).
  destruct (locate_geometry file h Hloc)
    as (R1 & R2 & R3 & D1 & D2 & S1 & S2 & S3 & S4).
  pose proof (land_range16 w) as Hw. rewrite <- Hlfa in Hw.
  change (2 ^ 16) with 65536 in Hw.
  assert (Hs : start_of_header h = 0x80
               \/ (0x40 <= start_of_header h
                   /\ start_of_header h mod 4 = 0
                   /\ start_of_header h + 4 <= lfa_new h)).
  { destruct Hstart as [[_ E]|(_ & Hnz & Hscan)]; [auto|].
    apply first_dans_found in Hscan; [|lia|assumption].
    destruct Hscan as (i & Hi & Hsi & _).
    destruct S4 as [E|E]; [auto|]. right.
    repeat split; [lia| |assumption].
    rewrite Hsi. replace (0x40 + 4 * Z.of_nat i)
      with ((16 + Z.of_nat i) * 4) by lia.
    apply Z.mod_mul. lia. }
  assert (Hbc : 0 <= byte_checksum l < 2 ^ 32).
  { rewrite Hl. cbn [byte_checksum locals_of]. apply byte_loop_range.
    change (2 ^ 32) with 4294967296. lia. }
  repeat split; try lia; try assumption.
  - apply dword_at_range in Hhc. lia.
  - apply dword_at_range in Hhc. lia.
  - rewrite Hl. cbn [checksum locals_of].
    apply entry_fold_range. cbn [fst]. rewrite Hl in Hbc. apply Hbc.
  - rewrite Hl. cbn [checksum locals_of].
    apply entry_fold_range. cbn [fst]. rewrite Hl in Hbc. apply Hbc.
Qed.

Lemma X2_witness :
  _parse sample_file 0 = inr (sample_locals, 0xA8)
  /\ rich_location (hdr sample_locals) + 4 <= lfa_new (hdr sample_locals).
Proof.
  assert (E : _parse sample_file 0 = inr (sample_locals, 0xA8))
    by (vm_compute; reflexivity).
  split; [exact E|].
  exact (proj1 (proj2 (proj2 (X2_header_geometry _ _ _ E)))).
Defined.

Lemma In_range i n : In i (range n) <-> 0 <= i < n.
Proof.
  unfold range. rewrite in_map_iff. split.
  - intros (k & <- & Hk). apply in_seq in Hk. lia.
  - intros H. exists (Z.to_nat i). split; [lia|]. apply in_seq. lia.
Qed.

Lemma word_at_range file p : 0 <= word_at file p < 2 ^ 32.
Proof.
  unfold word_at. destruct (dword_at file p) as [w|] eqn:E.
  - eapply dword_at_range. eassumption.
  - change (2 ^ 32) with 4294967296. lia.
Qed.

Lemma od_set_In d k v x : In x (od_set d k v) -> x = (k, v) \/ In x d.
Proof.
  induction d as [|[k' v'] d IH]; cbn [od_set In].
  - intros [H|[]]. auto.
  - destruct (k' =? k); cbn [In]; intros [H|H]; auto.
    apply IH in H. tauto.
Qed.

Lemma od_set_length d k v : (length (od_set d k v) <= S (length d))%nat.
Proof.
  induction d as [|[k' v'] d IH]; cbn [od_set length]; [lia|].
  destruct (k' =? k); cbn [length]; lia.
Qed.

Lemma od_fold_In items :
  forall d x, In x (fold_left od_insert items d) -> In x d \/ In x items.
Proof.
  induction items as [|[k v] items IH]; intros d x H; [auto|].
  cbn [fold_left] in H. apply IH in H. destruct H as [H|H].
  - apply od_set_In in H. cbn [fst snd] in H. cbn [In]. destruct H; auto.
  - cbn [In]. auto.
Qed.

Lemma od_fold_length items :
  forall d,
    (length (fold_left od_insert items d) <= length d + length items)%nat.
Proof.
  induction items as [|[k v] items IH]; intros d; cbn [fold_left length];
    [lia|].
  specialize (IH (od_insert d (k, v))).
  pose proof (od_set_length d k v). unfold od_insert in *. cbn [fst snd] in *.
  lia.
Qed.

Lemma decode_entry_range hc w1 w2 :
  0 <= hc < 2 ^ 32 -> 0 <= w1 < 2 ^ 32 -> 0 <= w2 < 2 ^ 32 ->
  0 <= fst (decode_entry hc w1 w2) < 2 ^ 16
  /\ 0 <= build_version (snd (decode_entry hc w1 w2)) < 2 ^ 16
  /\ 0 <= used_count (snd (decode_entry hc w1 w2)) < 2 ^ 32.
Proof.
  intros Hhc H1 H2. unfold decode_entry. cbn [fst snd build_version used_count].
  pose proof (lxor_range32 w1 hc H1 Hhc) as Hx.
  split; [|split].
  - rewrite Z.shiftr_div_pow2 by lia.
    split; [apply Z.div_pos; lia|].
    apply Z.div_lt_upper_bound; [lia|].
    change (2 ^ 16 * 2 ^ 16) with (2 ^ 32). lia.
  - apply land_range16.
  - apply lxor_range32; assumption.
Qed.

(** X3: on every successful run the tool ids of the entries mapping are
    distinct, there are at most [total_elements] entries, and every entry
    is the decoding of some eight-byte entry of the table, with a tool id
    and build version below [2^16] and a use count below [2^32]. *)
Theorem X3_entries_invariants file l p :
  _parse file 0 = inr (l, p) ->
  NoDup (od_keys (self_entries l))
  /\ Z.of_nat (length (self_entries l)) <= Z.max 0 (total_elements l)
  /\ forall k v,
       In (k, v) (self_entries l) ->
       0 <= k < 2 ^ 16
       /\ 0 <= build_version v < 2 ^ 16
       /\ 0 <= used_count v < 2 ^ 32
       /\ exists i,
            0 <= i < total_elements l
            /\ (k, v)
               = decode_entry (header_checksum (hdr l))
                   (word_at file (start_of_header (hdr l) + 0x10 + 8 * i))
                   (word_at file (start_of_header (hdr l) + 0x10 + 8 * i + 4)).
Proof.
  intros H. apply parse_ok_inv in H. destruct H as [Hloc Hl].
  set (h := hdr l) in *.
  destruct (locate_inv file h Hloc) as (w & w80 & _ & _ & _ & _ & _ & Hhc & _).
  apply dword_at_range in Hhc.
  assert (Ht : total_elements l
               = (rich_location h - start_of_header h - 0x10) / 0x8)
    by (rewrite Hl; reflexivity).
  assert (Hse : self_entries l
                = fold_left od_insert
                    (table_entries file (start_of_header h)
                       (header_checksum h) (total_elements l)) []).
  { rewrite Ht, Hl. apply self_entries_table. }
  rewrite Hse.
  split; [apply od_nodup_fold; constructor|]. split.
  - pose proof (od_fold_length
                  (table_entries file (start_of_header h) (header_checksum h)
                                 (total_elements l)) []) as L.
    unfold table_entries in L at 2. rewrite length_map, length_range in L.
    cbn [length] in L. lia.
  - intros k v Hin. apply od_fold_In in Hin. destruct Hin as [[]|Hin].
    unfold table_entries in Hin. apply in_map_iff in Hin.
    destruct Hin as (i & Hi & Hr). apply In_range in Hr.
    pose proof (decode_entry_range (header_checksum h)
                  (word_at file (start_of_header h + 0x10 + 8 * i))
                  (word_at file (start_of_header h + 0x10 + 8 * i + 4))
                  Hhc (word_at_range _ _) (word_at_range _ _)) as R.
    rewrite Hi in R. cbn [fst snd] in R.
    destruct R as (R1 & R2 & R3). repeat split; try lia.
    exists i. split; [assumption|]. symmetry. assumption.
Qed.

Lemma X3_witness :
  _parse sample_file 0 = inr (sample_locals, 0xA8)
  /\ NoDup (od_keys (self_entries sample_locals)).
Proof.
  assert (E : _parse sample_file 0 = inr (sample_locals, 0xA8))
    by (vm_compute; reflexivity).
  split; [exact E|]. exact (proj1 (X3_entries_invariants _ _ _ E)).
Defined.

(** X4: the decoding of an entry loses nothing: for 32-bit words, the
    tool id and build version recompose the XOR-decoded id word, and
    XORing the decoded values with the stored checksum gives the two words
    of the file back. *)
Theorem X4_entry_round_trip hc w1 w2 :
  0 <= hc < 2 ^ 32 -> 0 <= w1 < 2 ^ 32 -> 0 <= w2 < 2 ^ 32 ->
  let item := item_of_pair (Z.lxor w1 hc, Z.lxor w2 hc) in
  Z.lxor (fst item * 2 ^ 16 + build_version (snd item)) hc = w1
  /\ Z.lxor (used_count (snd item)) hc = w2.
Proof.
  intros Hhc H1 H2 item. unfold item, item_of_pair.
  cbn [fst snd build_version used_count].
  pose proof (lxor_range32 w1 hc H1 Hhc) as Hx.
  assert (E : Z.shiftr (Z.lxor w1 hc) 16 * 2 ^ 16
              + Z.land (Z.lxor w1 hc) 0xFFFF = Z.lxor w1 hc).
  { rewrite Z.shiftr_div_pow2 by lia.
    change 0xFFFF with (Z.ones 16). rewrite Z.land_ones by lia.
    rewrite Z.mul_comm. symmetry. apply Z.div_mod. lia. }
  rewrite E. rewrite !Z.lxor_assoc, Z.lxor_nilpotent, !Z.lxor_0_r.
  split; reflexivity.
Qed.

Lemma X4_witness :
  0 <= sample_checksum < 2 ^ 32
  /\ Z.lxor (used_count
               (snd (item_of_pair (Z.lxor 7 sample_checksum,
                                   Z.lxor 9 sample_checksum))))
            sample_checksum = 9.
Proof.
  assert (A : 0 <= sample_checksum < 2 ^ 32) by (vm_compute; split; [discriminate|reflexivity]).
  assert (B : 0 <= 7 < 2 ^ 32) by (vm_compute; split; [discriminate|reflexivity]).
  assert (C : 0 <= 9 < 2 ^ 32) by (vm_compute; split; [discriminate|reflexivity]).
  split; [exact A|].
  exact (proj2 (X4_entry_round_trip sample_checksum 7 9 A B C)).
Defined.

(** ** Outcomes of [decode] *)

(** The header search decided by the length of the file and the words at
    the offsets it reads. *)
Lemma locate_outcome file :
  let lfa := lfa_of file in
  let dat := firstn (Z.to_nat lfa) file in
  let rich := bytes_find dat Rich in
  let hc := word_at file (rich + 4) in
  locate file =
  if Z.of_nat (length file) <? 0x40 then inl struct_error
  else if rich =? -1 then
    inl (InvalidHeaderError "Rich header does not exist")
  else if Z.of_nat (length file) <? rich + 8 then inl struct_error
  else if Z.of_nat (length file) <? 0x84 then inl struct_error
  else if dans_at file hc 0x80 then inr (mk_header lfa dat rich hc 0x80)
  else
    match first_dans file hc (Z.to_nat ((lfa - 0x40) / 4)) 0x40 with
    | inl e => inl e
    | inr s =>
        if s =? 0 then
          inl (InvalidHeaderError "Could not find start of Rich header")
        else inr (mk_header lfa dat rich hc s)
    end.
Proof.
  intros lfa dat rich hc. unfold locate.
  destruct (Z.ltb_spec (Z.of_nat (length file)) 0x40) as [L|L].
  { rewrite dword_at_past_end by lia. reflexivity. }
  destruct (dword_at_in_bounds file 0x3C) as [w E3c]; [lia|lia|].
  rewrite E3c.
  assert (Hlfa : Z.land w 0xFFFF = lfa)
    by (unfold lfa, lfa_of; rewrite (word_at_Some _ _ _ E3c); reflexivity).
  rewrite Hlfa. fold dat. fold rich.
  destruct (Z.eqb_spec rich (-1)) as [Er|Er]; [reflexivity|].
  assert (Hr : 0 <= rich) by (apply bytes_find_found; assumption).
  change (rich + 0x4) with (rich + 4).
  destruct (Z.ltb_spec (Z.of_nat (length file)) (rich + 8)) as [L2|L2].
  { rewrite dword_at_past_end by lia. reflexivity. }
  destruct (dword_at_in_bounds file (rich + 4)) as [hc' Ehc]; [lia|lia|].
  rewrite Ehc.
  assert (Hhc : hc' = hc)
    by (unfold hc; rewrite (word_at_Some _ _ _ Ehc); reflexivity).
  subst hc'.
  destruct (Z.ltb_spec (Z.of_nat (length file)) 0x84) as [L3|L3].
  { rewrite dword_at_past_end by lia. reflexivity. }
  destruct (dword_at_in_bounds file 0x80) as [w80 E80]; [lia|lia|].
  rewrite E80. unfold dans_at at 1. rewrite E80.
  destruct (Z.lxor w80 hc =? DanS); reflexivity.
Qed.

Lemma first_dans_exists file hc :
  forall n o,
    0 < o ->
    (exists i, (i < n)%nat /\ dans_at file hc (o + 4 * Z.of_nat i) = true) ->
    exists s, first_dans file hc n o = inr s /\ s <> 0.
Proof.
  induction n as [|n IH]; intros o Ho (i & Hi & Hd); [lia|].
  cbn [first_dans].
  assert (Hb : o + 4 * Z.of_nat i + 4 <= Z.of_nat (length file)).
  { unfold dans_at in Hd.
    destruct (dword_at file (o + 4 * Z.of_nat i)) as [w|] eqn:E;
      [|discriminate].
    apply dword_at_Some_bound in E; lia. }
  destruct (dword_at_in_bounds file o) as [w Hw]; [lia|lia|].
  rewrite Hw. destruct (Z.lxor w hc =? DanS) eqn:Ed.
  - exists o. split; [reflexivity|lia].
  - destruct i as [|i].
    + rewrite Z.add_0_r in Hd. unfold dans_at in Hd.
      rewrite Hw, Ed in Hd. discriminate.
    + apply IH; [lia|]. exists i. split; [lia|].
      replace (o + 4 + 4 * Z.of_nat i) with (o + 4 * Z.of_nat (S i)) by lia.
      assumption.
Qed.

Lemma first_dans_error_iff file hc :
  forall n o,
    0 <= o ->
    (first_dans file hc n o = inl struct_error
     <-> exists i, (i < n)%nat
                   /\ Z.of_nat (length file) < o + 4 * Z.of_nat i + 4
                   /\ forall j, (j < i)%nat ->
                        dans_at file hc (o + 4 * Z.of_nat j) = false).
Proof.
  induction n as [|n IH]; intros o Ho; cbn [first_dans].
  - split; [discriminate|intros (i & Hi & _); lia].
  - destruct (dword_at file o) as [w|] eqn:Ew.
    + apply dword_at_Some_bound in Ew as Hb; [|assumption].
      destruct (Z.lxor w hc =? DanS) eqn:Ed.
      * split; [discriminate|]. intros ([|i] & Hi & Hlen & Hj); [lia|].
        specialize (Hj 0%nat ltac:(lia)). rewrite Z.add_0_r in Hj.
        unfold dans_at in Hj. rewrite Ew, Ed in Hj. discriminate.
      * rewrite IH by lia. split.
        -- intros (i & Hi & Hlen & Hj). exists (S i).
           repeat split; [lia|lia|].
           intros [|j] Hlt.
           ++ rewrite Z.add_0_r. unfold dans_at. rewrite Ew. assumption.
           ++ replace (o + 4 * Z.of_nat (S j))
                with (o + 4 + 4 * Z.of_nat j) by lia.
              apply Hj. lia.
        -- intros ([|i] & Hi & Hlen & Hj); [lia|].
           exists i. repeat split; [lia|lia|].
           intros j Hlt.
           replace (o + 4 + 4 * Z.of_nat j)
             with (o + 4 * Z.of_nat (S j)) by lia.
           apply Hj. lia.
    + split; [intros _|reflexivity].
      exists 0%nat. repeat split; [lia| |intros j Hj; lia].
      rewrite Z.add_0_r.
      destruct (Z_lt_le_dec (Z.of_nat (length file)) (o + 4)) as [L|L];
        [assumption|].
      destruct (dword_at_in_bounds file o Ho L) as [w Hw]. congruence.
Qed.

Lemma decode_ok_iff file :
  (exists r, decode file = inr r) <-> exists h, locate file = inr h.
Proof.
  rewrite decode_eq. destruct (locate file) as [e|h].
  - split; intros [x H]; discriminate.
  - split; intros _; eauto.
Qed.

Lemma decode_err_iff file e : decode file = inl e <-> locate file = inl e.
Proof.
  rewrite decode_eq. destruct (locate file) as [e'|h].
  - split; intros H; injection H as ->; reflexivity.
  - split; discriminate.
Qed.

Lemma scan_index_nat_Z (P : Z -> Prop) n :
  (exists i, (i < Z.to_nat n)%nat /\ P (Z.of_nat i))
  <-> exists i, 0 <= i < n /\ P i.
Proof.
  split.
  - intros (i & Hi & HP). exists (Z.of_nat i). split; [lia|assumption].
  - intros (i & Hi & HP). exists (Z.to_nat i).
    rewrite Z2Nat.id by lia. split; [lia|assumption].
Qed.

(** X5: [decode] returns a result exactly when the file has at least
    0x84 bytes, "Rich" occurs in its first [lfa_new] bytes with the
    checksum word after it inside the file, and the word at 0x80 or one of
    the scanned words at [0x40 + 4 i], [i < (lfa_new - 0x40) / 4], XORed
    with the stored checksum is "DanS". *)
Theorem X5_decode_succeeds_iff file :
  let lfa := lfa_of file in
  let rich := bytes_find (firstn (Z.to_nat lfa) file) Rich in
  let hc := word_at file (rich + 4) in
  (exists r, decode file = inr r)
  <-> 0x84 <= Z.of_nat (length file)
      /\ rich <> -1
      /\ rich + 8 <= Z.of_nat (length file)
      /\ (dans_at file hc 0x80 = true
          \/ exists i, 0 <= i < (lfa - 0x40) / 4
                       /\ dans_at file hc (0x40 + 4 * i) = true).
Proof.
  intros lfa rich hc. rewrite decode_ok_iff.
  pose proof (locate_outcome file) as O. cbv zeta in O.
  fold lfa in O. fold rich in O. fold hc in O. rewrite O. clear O.
  destruct (Z.ltb_spec (Z.of_nat (length file)) 0x40) as [L|L].
  { split; [intros [h H]; discriminate|lia]. }
  destruct (Z.eqb_spec rich (-1)) as [Er|Er].
  { split; [intros [h H]; discriminate|tauto]. }
  destruct (Z.ltb_spec (Z.of_nat (length file)) (rich + 8)) as [L2|L2].
  { split; [intros [h H]; discriminate|lia]. }
  destruct (Z.ltb_spec (Z.of_nat (length file)) 0x84) as [L3|L3].
  { split; [intros [h H]; discriminate|lia]. }
  destruct (dans_at file hc 0x80) eqn:E80.
  { split; [intros _; repeat split; auto|intros _; eauto]. }
  destruct (first_dans file hc (Z.to_nat ((lfa - 0x40) / 4)) 0x40)
    as [e|s] eqn:Es.
  - split; [intros [h H]; discriminate|].
    intros (_ & _ & _ & [H|H]); [discriminate|].
    apply (scan_index_nat_Z
             (fun i => dans_at file hc (0x40 + 4 * i) = true)) in H.
    apply first_dans_exists in H; [|lia].
    destruct H as (s & H & _). congruence.
  - destruct (Z.eqb_spec s 0) as [->|Hs].
    + split; [intros [h H]; discriminate|].
      intros (_ & _ & _ & [H|H]); [discriminate|].
      apply (scan_index_nat_Z
               (fun i => dans_at file hc (0x40 + 4 * i) = true)) in H.
      apply first_dans_exists in H; [|lia].
      destruct H as (s & H & Hs). congruence.
    + split; [intros _|intros _; eauto].
      repeat split; try assumption; try lia. right.
      apply (first_dans_found_Z file hc ((lfa - 0x40) / 4) s Hs) in Es.
      destruct Es as (i & Hi & -> & Hd & _). eauto.
Qed.

(** X6: [decode] raises nothing but [struct_error] and
    [InvalidHeaderError] with one of its two messages; the message "Rich
    header does not exist" is raised exactly when the file has at least
    0x40 bytes and "Rich" does not occur in its first [lfa_new] bytes, and
    "Could not find start of Rich header" only on a file of at least 0x84
    bytes in which "Rich" was found. *)
Theorem X6_error_kinds file :
  let lfa := lfa_of file in
  let rich := bytes_find (firstn (Z.to_nat lfa) file) Rich in
  (forall e, decode file = inl e ->
     e = struct_error
     \/ e = InvalidHeaderError "Rich header does not exist"
     \/ e = InvalidHeaderError "Could not find start of Rich header")
  /\ (decode file = inl (InvalidHeaderError "Rich header does not exist")
      <-> 0x40 <= Z.of_nat (length file)
          /\ forall k, occurs_at Rich (firstn (Z.to_nat lfa) file) k = false)
  /\ (decode file
      = inl (InvalidHeaderError "Could not find start of Rich header")
      -> rich <> -1 /\ 0x84 <= Z.of_nat (length file)).
Proof.
  intros lfa rich. rewrite <- bytes_find_absent. fold rich.
  rewrite !decode_err_iff.
  assert (K : forall e, decode file = inl e <-> locate file = inl e)
    by (intros e; apply decode_err_iff).
  pose proof (locate_outcome file) as O. cbv zeta in O.
  fold lfa in O. fold rich in O. rewrite O in *. clear O.
  destruct (Z.ltb_spec (Z.of_nat (length file)) 0x40) as [L|L].
  { split; [|split].
    - intros e He. apply K in He. injection He as <-. auto.
    - split; [discriminate|lia].
    - discriminate. }
  destruct (Z.eqb_spec rich (-1)) as [Er|Er].
  { split; [|split].
    - intros e He. apply K in He. injection He as <-. auto.
    - split; [auto|reflexivity].
    - discriminate. }
  destruct (Z.ltb_spec (Z.of_nat (length file)) (rich + 8)) as [L2|L2].
  { split; [|split].
    - intros e He. apply K in He. injection He as <-. auto.
    - split; [discriminate|tauto].
    - discriminate. }
  destruct (Z.ltb_spec (Z.of_nat (length file)) 0x84) as [L3|L3].
  { split; [|split].
    - intros e He. apply K in He. injection He as <-. auto.
    - split; [discriminate|tauto].
    - discriminate. }
  destruct (dans_at file _ 0x80).
  { split; [|split].
    - intros e He. apply K in He. discriminate.
    - split; [discriminate|tauto].
    - discriminate. }
  destruct (first_dans file _ _ 0x40) as [e'|s] eqn:Es.
  - apply first_dans_error in Es. subst e'. split; [|split].
    + intros e He. apply K in He. injection He as <-. auto.
    + split; [discriminate|tauto].
    + discriminate.
  - destruct (s =? 0); split; try split.
    + intros e He. apply K in He. injection He as <-. auto.
    + split; [discriminate|tauto].
    + intros _. split; [assumption|lia].
    + intros e He. apply K in He. discriminate.
    + split; [discriminate|tauto].
    + discriminate.
Qed.

(** X7: [decode] raises [struct_error] exactly when the file has fewer
    than 0x40 bytes, or "Rich" is found and the file ends before the
    checksum word after it or before offset 0x84, or the word at 0x80 does
    not decode and the scan reaches the end of the file before a word that
    decodes to "DanS". *)
Theorem X7_struct_error_iff file :
  let lfa := lfa_of file in
  let rich := bytes_find (firstn (Z.to_nat lfa) file) Rich in
  let hc := word_at file (rich + 4) in
  decode file = inl struct_error
  <-> Z.of_nat (length file) < 0x40
      \/ (rich <> -1
          /\ (Z.of_nat (length file) < rich + 8
              \/ Z.of_nat (length file) < 0x84
              \/ (dans_at file hc 0x80 = false
                  /\ exists i,
                       0 <= i < (lfa - 0x40) / 4
                       /\ Z.of_nat (length file) < 0x40 + 4 * i + 4
                       /\ forall j, 0 <= j < i ->
                            dans_at file hc (0x40 + 4 * j) = false))).
Proof.
  intros lfa rich hc. rewrite decode_err_iff.
  pose proof (locate_outcome file) as O. cbv zeta in O.
  fold lfa in O. fold rich in O. fold hc in O. rewrite O. clear O.
  destruct (Z.ltb_spec (Z.of_nat (length file)) 0x40) as [L|L].
  { split; [auto|reflexivity]. }
  destruct (Z.eqb_spec rich (-1)) as [Er|Er].
  { split; [discriminate|]. intros [H|[H _]]; [lia|contradiction]. }
  destruct (Z.ltb_spec (Z.of_nat (length file)) (rich + 8)) as [L2|L2].
  { split; [auto|reflexivity]. }
  destruct (Z.ltb_spec (Z.of_nat (length file)) 0x84) as [L3|L3].
  { split; [auto|reflexivity]. }
  destruct (dans_at file hc 0x80) eqn:E80.
  { split; [discriminate|].
    intros [H|(_ & [H|[H|[H _]]])]; try lia; try discriminate. }
  assert (Hscan : first_dans file hc (Z.to_nat ((lfa - 0x40) / 4)) 0x40
                  = inl struct_error
                  <-> exists i,
                        0 <= i < (lfa - 0x40) / 4
                        /\ Z.of_nat (length file) < 0x40 + 4 * i + 4
                        /\ forall j, 0 <= j < i ->
                             dans_at file hc (0x40 + 4 * j) = false).
  { rewrite first_dans_error_iff by lia. split.
    - intros (i & Hi & Hlen & Hj). exists (Z.of_nat i).
      repeat split; try lia.
      intros j Hjr. specialize (Hj (Z.to_nat j)).
      rewrite Z2Nat.id in Hj by lia. apply Hj. lia.
    - intros (i & Hi & Hlen & Hj). exists (Z.to_nat i).
      rewrite Z2Nat.id by lia. repeat split; try lia.
      intros j Hjr. apply Hj. lia. }
  destruct (first_dans file hc (Z.to_nat ((lfa - 0x40) / 4)) 0x40)
    as [e|s] eqn:Es.
  - apply first_dans_error in Es as He. subst e. split; [intros _|reflexivity].
    right. split; [assumption|]. right. right. split; [reflexivity|].
    apply Hscan. reflexivity.
  - assert (Hno : ~ exists i,
                      0 <= i < (lfa - 0x40) / 4
                      /\ Z.of_nat (length file) < 0x40 + 4 * i + 4
                      /\ forall j, 0 <= j < i ->
                           dans_at file hc (0x40 + 4 * j) = false).
    { intros H. apply Hscan in H. discriminate. }
    destruct (s =? 0); (split; [discriminate|]);
      intros [H|(_ & [H|[H|[_ H]]])]; try lia; contradiction.
Qed.

(** ** The part of the file [decode] looks at *)

Lemma dword_at_firstn file (N : nat) p :
  0 <= p -> p + 4 <= Z.of_nat N ->
  dword_at (firstn N file) p = dword_at file p.
Proof.
  intros Hp Hn. unfold dword_at.
  rewrite skipn_firstn_comm, firstn_firstn.
  replace (Nat.min 4 (N - Z.to_nat p)) with 4%nat by lia. reflexivity.
Qed.

Lemma word_at_firstn file (N : nat) p :
  0 <= p -> p + 4 <= Z.of_nat N ->
  word_at (firstn N file) p = word_at file p.
Proof.
  intros Hp Hn. unfold word_at. rewrite dword_at_firstn by assumption.
  reflexivity.
Qed.

Lemma first_dans_firstn file (N : nat) hc :
  forall n o,
    0 <= o -> o + 4 * Z.of_nat n <= Z.of_nat N ->
    first_dans (firstn N file) hc n o = first_dans file hc n o.
Proof.
  induction n as [|n IH]; intros o Ho Hn; [reflexivity|].
  cbn [first_dans]. rewrite dword_at_firstn by lia.
  destruct (dword_at file o) as [w|]; [|reflexivity].
  destruct (Z.lxor w hc =? DanS); [reflexivity|].
  apply IH; lia.
Qed.

Lemma lfa_of_range file : 0 <= lfa_of file <= 0xFFFF.
Proof.
  unfold lfa_of. pose proof (land_range16 (word_at file 0x3C)) as H.
  change (2 ^ 16) with 65536 in H. lia.
Qed.

Lemma locate_firstn file (N : nat) :
  Z.max 0x84 (lfa_of file + 4) <= Z.of_nat N ->
  locate (firstn N file) = locate file.
Proof.
  intros HN. pose proof (lfa_of_range file) as Hlfa.
  unfold locate. rewrite dword_at_firstn by lia.
  destruct (dword_at file 0x3C) as [w|] eqn:E3c; [|reflexivity].
  assert (Hw : Z.land w 0xFFFF = lfa_of file)
    by (unfold lfa_of; rewrite (word_at_Some _ _ _ E3c); reflexivity).
  rewrite Hw. rewrite firstn_firstn.
  replace (Nat.min (Z.to_nat (lfa_of file)) N)
    with (Z.to_nat (lfa_of file)) by lia.
  set (dat := firstn (Z.to_nat (lfa_of file)) file).
  destruct (Z.eqb_spec (bytes_find dat Rich) (-1)) as [Er|Er];
    [reflexivity|].
  destruct (bytes_find_found dat Rich Er) as (R1 & R2 & _).
  change (Z.of_nat (length Rich)) with 4 in R2.
  assert (Hd : Z.of_nat (length dat) <= lfa_of file).
  { unfold dat. rewrite length_firstn. lia. }
  rewrite dword_at_firstn by lia.
  destruct (dword_at file (bytes_find dat Rich + 0x4)) as [hc|];
    [|reflexivity].
  rewrite dword_at_firstn by lia.
  destruct (dword_at file 0x80) as [w80|]; [|reflexivity].
  destruct (negb (Z.lxor w80 hc =? DanS)); [|reflexivity].
  rewrite first_dans_firstn; [reflexivity|lia|].
  destruct (Z_le_gt_dec ((lfa_of file - 0x40) / 0x4) 0) as [L|L]; [lia|].
  assert (4 * ((lfa_of file - 0x40) / 0x4) <= lfa_of file - 0x40)
    by (apply Z.mul_div_le; lia).
  lia.
Qed.

Lemma locals_of_firstn file (N : nat) h :
  locate file = inr h ->
  Z.max 0x84 (lfa_of file + 4) <= Z.of_nat N ->
  locals_of (firstn N file) h = locals_of file h.
Proof.
  intros Hloc HN.
  destruct (locate_inv file h Hloc) as (w & w80 & E3c & Hlfa & _).
  assert (Hw : lfa_new h = lfa_of file).
  { rewrite Hlfa. unfold lfa_of. rewrite (word_at_Some _ _ _ E3c).
    reflexivity. }
  destruct (locate_geometry file h Hloc)
    as (R1 & R2 & R3 & D1 & D2 & S1 & S2 & S3 & S4).
  assert (Hp : entry_pairs (firstn N file) h = entry_pairs file h).
  { unfold entry_pairs. apply map_ext_in. intros i Hi.
    apply In_range in Hi.
    assert (8 * ((rich_location h - start_of_header h - 0x10) / 0x8)
            <= rich_location h - start_of_header h - 0x10)
      by (apply Z.mul_div_le; lia).
    unfold pair_at. rewrite !word_at_firstn by lia. reflexivity. }
  unfold locals_of. rewrite Hp. reflexivity.
Qed.

(** X8: [decode] looks at no byte from offset
    [max 0x84 (lfa_new + 4)] on: it gives the same result, or raises the
    same exception, on the file cut at any length from there. *)
Theorem X8_decode_reads_a_prefix file (N : nat) :
  Z.max 0x84 (lfa_of file + 4) <= Z.of_nat N ->
  decode (firstn N file) = decode file.
Proof.
  intros HN. rewrite !decode_eq, locate_firstn by assumption.
  destruct (locate file) as [e|h] eqn:E; [reflexivity|].
  rewrite locals_of_firstn by assumption. reflexivity.
Qed.

Lemma X8_witness :
  Z.max 0x84 (lfa_of (sample_file ++ zeros 400) + 4) <= Z.of_nat 0xB4
  /\ decode (firstn 0xB4 (sample_file ++ zeros 400))
     = decode (sample_file ++ zeros 400).
Proof.
  assert (H : Z.max 0x84 (lfa_of (sample_file ++ zeros 400) + 4)
              <= Z.of_nat 0xB4) by (vm_compute; discriminate).
  split; [exact H|].
  exact (X8_decode_reads_a_prefix (sample_file ++ zeros 400) 0xB4 H).
Defined.

Lemma dword_at_app file tail p :
  0 <= p -> p + 4 <= Z.of_nat (length file) ->
  dword_at (file ++ tail) p = dword_at file p.
Proof.
  intros Hp Hlen. unfold dword_at. rewrite skipn_app, firstn_app.
  replace (4 - length (skipn (Z.to_nat p) file))%nat with 0%nat
    by (rewrite length_skipn; lia).
  cbn [firstn]. rewrite app_nil_r. reflexivity.
Qed.

(** X9: bytes appended to a file that reaches offset
    [max 0x84 (lfa_new + 4)] change nothing: what follows the header
    region, the program itself, has no part in the result. *)
Theorem X9_decode_ignores_the_rest file tail :
  Z.max 0x84 (lfa_of file + 4) <= Z.of_nat (length file) ->
  decode (file ++ tail) = decode file.
Proof.
  intros HN.
  assert (Hl : lfa_of (file ++ tail) = lfa_of file).
  { unfold lfa_of, word_at. rewrite dword_at_app by lia. reflexivity. }
  assert (Hcut : firstn (length file) (file ++ tail) = file).
  { rewrite firstn_app, Nat.sub_diag, firstn_all. cbn [firstn].
    apply app_nil_r. }
  assert (HN' : Z.max 0x84 (lfa_of (file ++ tail) + 4)
                <= Z.of_nat (length file)) by (rewrite Hl; assumption).
  assert (Hloc : locate (file ++ tail) = locate file).
  { rewrite <- (locate_firstn (file ++ tail) (length file) HN'), Hcut.
    reflexivity. }
  rewrite !decode_eq, Hloc.
  destruct (locate file) as [e|h] eqn:E; [reflexivity|].
  rewrite <- (locals_of_firstn (file ++ tail) (length file) h Hloc HN'), Hcut.
  reflexivity.
Qed.

Lemma X9_witness :
  Z.max 0x84 (lfa_of sample_file + 4) <= Z.of_nat (length sample_file)
  /\ decode (sample_file ++ zeros 400) = decode sample_file.
Proof.
  assert (H : Z.max 0x84 (lfa_of sample_file + 4)
              <= Z.of_nat (length sample_file)) by (vm_compute; discriminate).
  split; [exact H|].
  exact (X9_decode_ignores_the_rest sample_file (zeros 400) H).
Defined.

(** ** What the checksum does not cover *)

Lemma enumerate_from_app {A} (l1 l2 : list A) :
  forall i,
    enumerate_from i (l1 ++ l2)
    = enumerate_from i l1 ++ enumerate_from (i + Z.of_nat (length l1)) l2.
Proof.
  induction l1 as [|x l1 IH]; intros i; cbn [app enumerate_from length].
  - rewrite Z.add_0_r. reflexivity.
  - rewrite IH.
    replace (i + Z.of_nat (S (length l1)))
      with (i + 1 + Z.of_nat (length l1)) by lia.
    reflexivity.
Qed.

(** X10: the four bytes of the [e_lfanew] field, at offsets 0x3C to 0x3F,
    have no part in the accumulator of the byte loop: two byte strings
    that differ only there give the same value. *)
Theorem X10_lfanew_field_not_summed (pre a b post : list byte) (init : Z) :
  length pre = 0x3C%nat -> length a = 4%nat -> length b = 4%nat ->
  byte_loop (pre ++ a ++ post) init = byte_loop (pre ++ b ++ post) init.
Proof.
  intros Hpre Ha Hb. unfold byte_loop, enumerate.
  rewrite !enumerate_from_app, !fold_left_app, Hpre, Ha, Hb.
  f_equal.
  destruct a as [|a0 [|a1 [|a2 [|a3 [|a4 a]]]]]; try discriminate.
  destruct b as [|b0 [|b1 [|b2 [|b3 [|b4 b]]]]]; try discriminate.
  reflexivity.
Qed.

Lemma X10_witness :
  length (firstn 0x3C sample_file) = 0x3C%nat
  /\ byte_loop (firstn 0x3C sample_file ++ le32 0xB0 ++ zeros 64) 0x80
     = byte_loop (firstn 0x3C sample_file ++ le32 0xFFFF ++ zeros 64) 0x80.
Proof.
  assert (H : length (firstn 0x3C sample_file) = 0x3C%nat) by reflexivity.
  split; [exact H|].
  exact (X10_lfanew_field_not_summed (firstn 0x3C sample_file) (le32 0xB0)
           (le32 0xFFFF) (zeros 64) 0x80 H eq_refl eq_refl).
Defined.

Lemma entry_fold_same_rotation pairs pairs' :
  Forall2 same_rotation pairs pairs' ->
  forall st st',
    fst st = fst st' ->
    fst (fold_left entry_step pairs st)
    = fst (fold_left entry_step pairs' st').
Proof.
  induction 1 as [|[cd uc] [cd' uc'] pairs pairs' [H1 H2] HF IH];
    intros st st' Hst; [assumption|].
  cbn [fst snd] in H1, H2. subst cd'. cbn [fold_left]. apply IH.
  cbn [entry_step fst]. rewrite Hst, H2. reflexivity.
Qed.

(** X11: the checksum covers the count words only modulo 32.  Two
    files that decode with the same stored checksum and the same
    accumulator after the byte loop, and whose entries have the same id
    words and counts that agree modulo 32, get the same final accumulator
    and the same [checksum_matches]. *)
Theorem X11_counts_summed_modulo_32 file file' l l' p p' :
  _parse file 0 = inr (l, p) ->
  _parse file' 0 = inr (l', p') ->
  header_checksum (hdr l) = header_checksum (hdr l') ->
  byte_checksum l = byte_checksum l' ->
  Forall2 same_rotation (entry_pairs file (hdr l)) (entry_pairs file' (hdr l')) ->
  checksum l = checksum l'
  /\ self_checksum_matches l = self_checksum_matches l'.
Proof.
  intros H H' Hhc Hbc HF.
  apply parse_ok_inv in H. destruct H as [_ Hl].
  apply parse_ok_inv in H'. destruct H' as [_ Hl'].
  assert (Hc : checksum l = checksum l').
  { rewrite Hl, Hl'. cbn [checksum locals_of].
    apply entry_fold_same_rotation; [assumption|].
    cbn [fst]. rewrite Hl, Hl' in Hbc. exact Hbc. }
  split; [assumption|].
  rewrite Hl, Hl'. cbn [self_checksum_matches locals_of].
  rewrite Hl, Hl' in Hc. cbn [checksum locals_of] in Hc.
  rewrite Hl, Hl' in Hhc. cbn [hdr locals_of] in Hhc.
  rewrite Hc, Hhc. reflexivity.
Qed.

Lemma X11_witness :
  _parse sample_file 0 = inr (sample_locals, 0xA8)
  /\ _parse count_changed_file 0 = inr (count_changed_locals, 0xA8)
  /\ self_entries sample_locals <> self_entries count_changed_locals
  /\ self_checksum_matches sample_locals
     = self_checksum_matches count_changed_locals.
Proof.
  assert (E : _parse sample_file 0 = inr (sample_locals, 0xA8))
    by (vm_compute; reflexivity).
  assert (E' : _parse count_changed_file 0 = inr (count_changed_locals, 0xA8))
    by (vm_compute; reflexivity).
  split; [exact E|]. split; [exact E'|].
  split; [vm_compute; discriminate|].
  refine (proj2 (X11_counts_summed_modulo_32 _ _ _ _ _ _ E E' _ _ _)).
  - reflexivity.
  - vm_compute. reflexivity.
  - vm_compute. repeat constructor.
Defined.

(** ** [__eq__] as a relation *)

Lemma eq_true_lookup self other :
  NoDup (od_keys (entries self)) ->
  (__eq__ self other = true
   <-> length (entries self) = length (entries other)
       /\ (forall k, od_get (entries self) k = od_get (entries other) k)
       /\ checksum_matches self = checksum_matches other).
Proof.
  intros Hs. rewrite eq_unfold, eq_items_spec. split.
  - intros (L & F & C). repeat split; try assumption.
    assert (Fwd : forall k v, od_get (entries self) k = Some v ->
                              od_get (entries other) k = Some v).
    { intros k v Hk. apply F. apply od_get_In; assumption. }
    intros k. destruct (od_get (entries self) k) as [v|] eqn:E.
    + symmetry. apply Fwd. assumption.
    + destruct (od_get (entries other) k) as [v|] eqn:E'; [|reflexivity].
      exfalso.
      assert (Hin : In k (od_keys (entries self))).
      { apply (@NoDup_length_incl Z (od_keys (entries self))
                 (od_keys (entries other)) Hs).
        - unfold od_keys. rewrite !length_map. lia.
        - intros x Hx. apply od_get_In_keys in Hx.
          destruct (od_get (entries self) x) as [vx|] eqn:Ex; [|contradiction].
          apply od_get_In_keys. rewrite (Fwd x vx Ex). discriminate.
        - apply od_get_In_keys. rewrite E'. discriminate. }
      apply od_get_In_keys in Hin. contradiction.
  - intros (L & F & C). repeat split; try assumption.
    intros k v Hin. rewrite <- F. apply od_get_In; assumption.
Qed.

(** X12: on results whose keys are distinct, as those of a dict are,
    [__eq__] is an equivalence relation: every result equals itself, the
    comparison gives the same answer in both directions although it only
    walks the entries of [self], and it is transitive. *)
Theorem X12_eq_equivalence (a b c : PERichHeaderParser) :
  NoDup (od_keys (entries a)) ->
  NoDup (od_keys (entries b)) ->
  __eq__ a a = true
  /\ __eq__ a b = __eq__ b a
  /\ (__eq__ a b = true -> __eq__ b c = true -> __eq__ a c = true).
Proof.
  intros Ha Hb.
  assert (Sym : forall x y,
            NoDup (od_keys (entries x)) -> NoDup (od_keys (entries y)) ->
            __eq__ x y = true -> __eq__ y x = true).
  { intros x y Hx Hy E. apply (proj1 (eq_true_lookup x y Hx)) in E.
    destruct E as (L & F & C).
    apply (proj2 (eq_true_lookup y x Hy)). repeat split; auto. }
  split; [|split].
  - apply (proj2 (eq_true_lookup a a Ha)). repeat split.
  - destruct (__eq__ a b) eqn:E, (__eq__ b a) eqn:E'; try reflexivity.
    + apply (Sym a b Ha Hb) in E. congruence.
    + apply (Sym b a Hb Ha) in E'. congruence.
  - intros E1 E2.
    apply (proj1 (eq_true_lookup a b Ha)) in E1. destruct E1 as (L1 & F1 & C1).
    apply (proj1 (eq_true_lookup b c Hb)) in E2. destruct E2 as (L2 & F2 & C2).
    apply (proj2 (eq_true_lookup a c Ha)).
    split; [congruence|split; [|congruence]].
    intros k. rewrite F1. apply F2.
Qed.

Lemma X12_witness :
  NoDup (od_keys (entries result_a))
  /\ NoDup (od_keys (entries result_b))
  /\ __eq__ result_a result_b = __eq__ result_b result_a.
Proof.
  assert (Na : NoDup (od_keys (entries result_a))).
  { repeat constructor; cbn; intuition discriminate. }
  assert (Nb : NoDup (od_keys (entries result_b))).
  { repeat constructor; cbn; intuition discriminate. }
  split; [exact Na|]. split; [exact Nb|].
  exact (proj1 (proj2 (X12_eq_equivalence result_a result_b result_a Na Nb))).
Defined.

(** ** The report *)

Lemma count_char_append c s1 s2 :
  count_char c (s1 ++ s2)%string = (count_char c s1 + count_char c s2)%nat.
Proof.
  induction s1 as [|a s1 IH]; cbn [append count_char]; [reflexivity|].
  rewrite IH. lia.
Qed.

Lemma all_chars_count P c s :
  all_chars P s = true -> P c = false -> count_char c s = 0%nat.
Proof.
  intros H Hc. induction s as [|a s IH]; cbn [all_chars count_char] in *;
    [reflexivity|].
  apply andb_prop in H. destruct H as [Ha Hs].
  destruct (Ascii.eqb_spec a c) as [->|_]; [congruence|].
  rewrite IH by assumption. reflexivity.
Qed.

Lemma uint_chars d : all_chars is_num_char (NilEmpty.string_of_uint d) = true.
Proof.
  induction d; cbn [NilEmpty.string_of_uint all_chars];
    try rewrite IHd; reflexivity.
Qed.

Lemma str_int_chars z : all_chars is_num_char (str_int z) = true.
Proof.
  unfold str_int.
  assert (U : forall d, all_chars is_num_char (NilZero.string_of_uint d) = true).
  { intros d. destruct d; try reflexivity; apply (uint_chars (_ d)). }
  destruct (Z.to_int z) as [d|d]; cbn [NilZero.string_of_int all_chars].
  - apply U.
  - rewrite U. reflexivity.
Qed.

Lemma spaces_count c n : c <> " "%char -> count_char c (spaces n) = 0%nat.
Proof.
  intros Hc. induction n as [|n IH]; cbn [spaces count_char]; [reflexivity|].
  destruct (Ascii.eqb_spec " " c) as [E|_]; [congruence|]. assumption.
Qed.

Lemma format_width_count c w z :
  c <> " "%char -> is_num_char c = false ->
  count_char c (format_width w z) = 0%nat.
Proof.
  intros H1 H2. unfold format_width.
  rewrite count_char_append, spaces_count by assumption.
  rewrite (all_chars_count is_num_char) by (try apply str_int_chars; assumption).
  reflexivity.
Qed.

Lemma format_row_no_newline item : count_char newline (format_row item) = 0%nat.
Proof.
  unfold format_row.
  rewrite count_char_append. cbn [count_char].
  rewrite count_char_append. cbn [count_char].
  rewrite !format_width_count by (try discriminate; reflexivity).
  reflexivity.
Qed.

Lemma concat_cons2 sep (x y : string) ls :
  String.concat sep (x :: y :: ls)
  = (x ++ sep ++ String.concat sep (y :: ls))%string.
Proof. reflexivity. Qed.

Lemma concat_newline_count (ls : list string) :
  ls <> [] ->
  count_char newline (String.concat (String newline EmptyString) ls)
  = (list_sum (map (count_char newline) ls) + (length ls - 1))%nat.
Proof.
  induction ls as [|x ls IH]; intros Hne; [contradiction|].
  destruct ls as [|y ls].
  - cbn. lia.
  - rewrite concat_cons2, !count_char_append.
    rewrite IH by discriminate. cbn [count_char map length].
    change (Ascii.eqb newline newline) with true.
    unfold list_sum. cbn [fold_right]. lia.
Qed.

(** X13: the report has one line for the file name, one for the table
    heading, one per entry and one for the checksum flag: the number of
    newline characters in [__str__] is that of the file name plus two plus
    the number of entries. *)
Theorem X13_report_lines filename self :
  count_char newline (__str__ filename self)
  = (count_char newline filename + 2 + length (entries self))%nat.
Proof.
  unfold __str__. cbn [app].
  rewrite concat_newline_count by discriminate.
  assert (Z0 : forall l, list_sum (map (count_char newline)
                                       (map format_row l)) = 0%nat).
  { induction l as [|x l IH]; [reflexivity|].
    cbn [map]. unfold list_sum in *. cbn [fold_right].
    rewrite format_row_no_newline, IH. reflexivity. }
  cbn [map length]. rewrite map_app, length_app, length_map.
  unfold list_sum in *. cbn [fold_right]. rewrite fold_right_app.
  cbn [map fold_right length].
  assert (L : count_char newline
                ("Checksum Match: " ++ str_bool (checksum_matches self))%string
              = 0%nat) by (destruct (checksum_matches self); reflexivity).
  rewrite L. cbn [Nat.add]. rewrite Z0.
  change (count_char newline table_heading) with 0%nat.
  rewrite count_char_append.
  change (count_char newline "File: ") with 0%nat. lia.
Qed.

Lemma append_inj_l (s a b : string) : (s ++ a = s ++ b)%string -> a = b.
Proof.
  induction s as [|c s IH]; cbn [append]; [auto|].
  intros H. injection H as H. auto.
Qed.

Lemma split_unique c (x x' r r' : string) :
  count_char c x = 0%nat -> count_char c x' = 0%nat ->
  (x ++ String c r = x' ++ String c r')%string ->
  x = x' /\ r = r'.
Proof.
  revert x'. induction x as [|a x IH]; intros [|a' x'] Hx Hx' H;
    cbn [append count_char] in *.
  - injection H as ->. auto.
  - injection H as <- _. rewrite Ascii.eqb_refl in Hx'. discriminate.
  - injection H as -> _. rewrite Ascii.eqb_refl in Hx. discriminate.
  - injection H as -> H.
    destruct (Ascii.eqb a' c); [discriminate|].
    destruct (IH x' Hx Hx' H) as [-> ->]. auto.
Qed.

Lemma no_split_end c (x x' r' : string) :
  count_char c x = 0%nat -> x <> (x' ++ String c r')%string.
Proof.
  intros Hx ->. rewrite count_char_append in Hx. cbn [count_char] in Hx.
  rewrite Ascii.eqb_refl in Hx. lia.
Qed.

Lemma lstrip_spaces n s :
  match s with String a _ => a <> " "%char | EmptyString => True end ->
  lstrip (spaces n ++ s) = s.
Proof.
  intros Hs. induction n as [|n IH]; cbn [spaces append lstrip].
  - destruct s as [|a s]; [reflexivity|]. cbn [lstrip].
    destruct (Ascii.eqb_spec a " "); [contradiction|reflexivity].
  - assumption.
Qed.

Lemma str_int_inj a b : str_int a = str_int b -> a = b.
Proof.
  unfold str_int. intros H.
  assert (N : forall z, Z.to_int z <> Decimal.Pos Decimal.Nil
                        /\ Z.to_int z <> Decimal.Neg Decimal.Nil).
  { intros [|q|q]; cbn [Z.to_int]; split; try discriminate;
      intros E; injection E as E;
      exact (DecimalPos.Unsigned.to_uint_nonnil q E). }
  apply (f_equal NilZero.int_of_string) in H.
  rewrite !NilZero.isi in H by apply N.
  injection H as H. apply (f_equal Z.of_int) in H.
  rewrite !DecimalZ.of_to in H. assumption.
Qed.

Lemma format_width_inj w a b : format_width w a = format_width w b -> a = b.
Proof.
  unfold format_width. intros H. apply (f_equal lstrip) in H.
  assert (F : forall z,
            match str_int z with
            | String c _ => c <> " "%char
            | EmptyString => True
            end).
  { intros z. pose proof (str_int_chars z) as C.
    destruct (str_int z) as [|c s]; [exact I|].
    cbn [all_chars] in C. apply andb_prop in C. destruct C as [C _].
    intros ->. discriminate. }
  rewrite !lstrip_spaces in H by apply F.
  apply str_int_inj. assumption.
Qed.

Lemma format_width_no_tab w z : count_char tab (format_width w z) = 0%nat.
Proof. apply format_width_count; [discriminate|reflexivity]. Qed.

Lemma format_row_inj item item' : format_row item = format_row item' -> item = item'.
Proof.
  destruct item as [k [bv uc]], item' as [k' [bv' uc']].
  unfold format_row. cbn [fst snd build_version used_count]. intros H.
  apply split_unique in H; try apply format_width_no_tab.
  destruct H as [Hk H]. injection H as H.
  apply split_unique in H; try apply format_width_no_tab.
  destruct H as [Hv H]. injection H as H.
  apply format_width_inj in Hk, Hv, H. subst. reflexivity.
Qed.

Lemma concat_newline_inj (ls ls' : list string) :
  ls <> [] -> ls' <> [] ->
  Forall (fun s => count_char newline s = 0%nat) ls ->
  Forall (fun s => count_char newline s = 0%nat) ls' ->
  String.concat (String newline EmptyString) ls
  = String.concat (String newline EmptyString) ls' ->
  ls = ls'.
Proof.
  revert ls'. induction ls as [|x ls IH]; intros ls' Hne Hne' HF HF' H;
    [contradiction|].
  destruct ls' as [|x' ls']; [contradiction|].
  inversion HF as [|? ? Hx HFt]; subst.
  inversion HF' as [|? ? Hx' HFt']; subst.
  destruct ls as [|y ls], ls' as [|y' ls'].
  - cbn in H. congruence.
  - rewrite concat_cons2 in H. cbn [String.concat append] in H.
    exfalso. exact (no_split_end newline x x' _ Hx H).
  - rewrite concat_cons2 in H. cbn [String.concat append] in H.
    exfalso. symmetry in H. exact (no_split_end newline x' x _ Hx' H).
  - rewrite !concat_cons2 in H. cbn [append] in H.
    apply split_unique in H; try assumption.
    destruct H as [-> H]. f_equal.
    apply IH; try assumption; discriminate.
Qed.

Lemma str_unfold filename self :
  __str__ filename self
  = (("File: " ++ filename) ++ String newline EmptyString
     ++ String.concat (String newline EmptyString)
          (table_heading
           :: map format_row (entries self)
              ++ [("Checksum Match: "
                   ++ str_bool (checksum_matches self))%string]))%string.
Proof. reflexivity. Qed.

Lemma report_tail_no_newline self :
  Forall (fun s => count_char newline s = 0%nat)
    (table_heading
     :: map format_row (entries self)
        ++ [("Checksum Match: " ++ str_bool (checksum_matches self))%string]).
Proof.
  constructor; [reflexivity|]. apply Forall_app. split.
  - apply Forall_map, Forall_forall. intros x _. apply format_row_no_newline.
  - constructor; [|constructor]. destruct (checksum_matches self); reflexivity.
Qed.

Lemma map_format_row_inj l :
  forall l', map format_row l = map format_row l' -> l = l'.
Proof.
  induction l as [|x l IH]; intros [|y l'] H; cbn [map] in H;
    try discriminate; [reflexivity|].
  injection H as Hx H. apply format_row_inj in Hx. subst.
  f_equal. apply IH. assumption.
Qed.

(** X14: the report determines what was decoded: two results printed
    under the same file name give the same text only if their entries, in
    order, and their checksum flags are the same. *)
Theorem X14_report_injective filename (a b : PERichHeaderParser) :
  __str__ filename a = __str__ filename b ->
  entries a = entries b /\ checksum_matches a = checksum_matches b.
Proof.
  rewrite !str_unfold. intros H.
  apply append_inj_l, append_inj_l in H.
  apply concat_newline_inj in H;
    try discriminate; try apply report_tail_no_newline.
  assert (H' : map format_row (entries a)
               ++ [("Checksum Match: " ++ str_bool (checksum_matches a))%string]
               = map format_row (entries b)
                 ++ [("Checksum Match: "
                      ++ str_bool (checksum_matches b))%string])
    by congruence.
  apply app_inj_tail in H'. destruct H' as [Hm Hl]. split.
  - apply map_format_row_inj. assumption.
  - apply append_inj_l in Hl.
    destruct (checksum_matches a), (checksum_matches b);
      try reflexivity; discriminate.
Qed.

Lemma X14_witness :
  __str__ "a.exe" result_a = __str__ "a.exe" result_a
  /\ entries result_a = entries result_a.
Proof.
  assert (H : __str__ "a.exe" result_a = __str__ "a.exe" result_a)
    by reflexivity.
  split; [exact H|]. exact (proj1 (X14_report_injective _ _ _ H)).
Defined.

(** ** [main] *)

Lemma eq_refl_nodup r : NoDup (od_keys (entries r)) -> __eq__ r r = true.
Proof.
  intros H. apply (proj2 (eq_true_lookup r r H)). repeat split.
Qed.

Lemma eq_sym_nodup x y :
  NoDup (od_keys (entries x)) -> NoDup (od_keys (entries y)) ->
  __eq__ x y = __eq__ y x.
Proof.
  intros Hx Hy.
  assert (Sym : forall u v,
            NoDup (od_keys (entries u)) -> NoDup (od_keys (entries v)) ->
            __eq__ u v = true -> __eq__ v u = true).
  { intros u v Hu Hv E. apply (proj1 (eq_true_lookup u v Hu)) in E.
    destruct E as (L & F & C).
    apply (proj2 (eq_true_lookup v u Hv)). repeat split; auto. }
  destruct (__eq__ x y) eqn:E, (__eq__ y x) eqn:E'; try reflexivity.
  - apply (Sym x y Hx Hy) in E. congruence.
  - apply (Sym y x Hy Hx) in E'. congruence.
Qed.

(** X15: when both files decode, [main] prints the two reports and one
    verdict and raises nothing; the verdict does not depend on the order
    of the two files, and for two files with the same contents, under any
    names, it is "Both files have identical linker headers". *)
Theorem X15_main_verdict name1 file1 name2 file2 p q :
  decode file1 = inr p ->
  decode file2 = inr q ->
  (exists verdict,
      main name1 file1 name2 file2
      = ([__str__ name1 p; __str__ name2 q; verdict], None)
      /\ main name2 file2 name1 file1
         = ([__str__ name2 q; __str__ name1 p; verdict], None))
  /\ (file1 = file2 ->
      main name1 file1 name2 file2
      = ([__str__ name1 p; __str__ name2 p;
          "Both files have identical linker headers"%string], None)).
Proof.
  intros Hp Hq.
  pose proof (decode_nodup _ _ Hp) as Np.
  pose proof (decode_nodup _ _ Hq) as Nq.
  split.
  - unfold main. rewrite Hp, Hq. rewrite (eq_sym_nodup q p Nq Np).
    destruct (__eq__ p q); eexists; split; reflexivity.
  - intros ->. assert (q = p) by congruence. subst q.
    unfold main. rewrite Hp, (eq_refl_nodup p Np). reflexivity.
Qed.

Lemma X15_witness :
  decode sample_file = inr result_a
  /\ decode tampered_file = inr (mk_parser (entries result_c) false)
  /\ exists verdict,
       main "a.exe" sample_file "b.exe" tampered_file
       = ([__str__ "a.exe" result_a;
           __str__ "b.exe" (mk_parser (entries result_c) false); verdict],
          None)
       /\ main "b.exe" tampered_file "a.exe" sample_file
          = ([__str__ "b.exe" (mk_parser (entries result_c) false);
              __str__ "a.exe" result_a; verdict], None).
Proof.
  assert (A : decode sample_file = inr result_a) by (vm_compute; reflexivity).
  assert (B : decode tampered_file = inr (mk_parser (entries result_c) false))
    by (vm_compute; reflexivity).
  split; [exact A|]. split; [exact B|].
  exact (proj1 (X15_main_verdict "a.exe" sample_file "b.exe" tampered_file
                  _ _ A B)).
Defined.

(** ** Files laid out with the header at 0x80 *)

Lemma byte_val_of_Z z : byte_val (byte_of_Z z) = z mod 256.
Proof.
  assert (Hm : 0 <= z mod 256 < 256) by (apply Z.mod_pos_bound; lia).
  unfold byte_val, byte_of_Z.
  destruct (Byte.of_N (Z.to_N (z mod 256))) as [b|] eqn:E.
  - apply Byte.to_of_N in E. rewrite E. lia.
  - apply Byte.of_N_None_iff in E. lia.
Qed.

Lemma length_le32 w : length (le32 w) = 4%nat.
Proof. reflexivity. Qed.

Lemma unpack_le32 w : 0 <= w < 2 ^ 32 -> unpack_I (le32 w) = inr w.
Proof.
  intros Hw. unfold le32. cbn [map unpack_I]. rewrite !byte_val_of_Z.
  f_equal. change (2 ^ 32) with 4294967296 in Hw.
  change (2 ^ 8) with 256. change (2 ^ 16) with 65536.
  change (2 ^ 24) with 16777216.
  Z.div_mod_to_equations. lia.
Qed.

Lemma dword_at_le32 pre w post :
  0 <= w < 2 ^ 32 ->
  dword_at (pre ++ le32 w ++ post) (Z.of_nat (length pre)) = Some w.
Proof.
  intros Hw. unfold dword_at. rewrite Nat2Z.id.
  rewrite skipn_app, skipn_all, Nat.sub_diag. cbn [app skipn].
  change (firstn 4 (le32 w ++ post)) with (le32 w).
  rewrite unpack_le32 by assumption. reflexivity.
Qed.

Lemma lxor_twice a hc : Z.lxor (Z.lxor a hc) hc = a.
Proof. rewrite Z.lxor_assoc, Z.lxor_nilpotent. apply Z.lxor_0_r. Qed.

Lemma length_enc_pair hc e : length (enc_pair hc e) = 8%nat.
Proof. reflexivity. Qed.

Lemma pair_at_layout hc :
  0 <= hc < 2 ^ 32 ->
  forall pairs pre post,
    Forall word32 pairs ->
    map (pair_at (pre ++ flat_map (enc_pair hc) pairs ++ post) hc
                 (Z.of_nat (length pre)))
        (range (Z.of_nat (length pairs)))
    = pairs.
Proof.
  intros Hhc. induction pairs as [|e pairs IH]; intros pre post HF;
    [reflexivity|].
  inversion HF as [|? ? [He1 He2] HF']; subst.
  unfold range. rewrite Nat2Z.id. cbn [length seq map].
  rewrite <- seq_shift, !map_map. f_equal.
  - set (tl := flat_map (enc_pair hc) pairs ++ post).
    assert (Hf : pre ++ flat_map (enc_pair hc) (e :: pairs) ++ post
                 = pre ++ le32 (Z.lxor (fst e) hc)
                       ++ le32 (Z.lxor (snd e) hc) ++ tl).
    { cbn [flat_map]. unfold enc_pair at 1, tl.
      rewrite <- !app_assoc. reflexivity. }
    rewrite Hf. unfold pair_at, word_at.
    rewrite Z.mul_0_r, Z.add_0_r.
    rewrite dword_at_le32 by (apply lxor_range32; assumption).
    replace (Z.of_nat (length pre) + 4)
      with (Z.of_nat (length (pre ++ le32 (Z.lxor (fst e) hc))))
      by (rewrite length_app, length_le32; lia).
    rewrite (app_assoc pre (le32 (Z.lxor (fst e) hc))).
    rewrite dword_at_le32 by (apply lxor_range32; assumption).
    rewrite !lxor_twice. destruct e; reflexivity.
  - specialize (IH (pre ++ enc_pair hc e) post HF').
    unfold range in IH. rewrite Nat2Z.id, map_map in IH.
    etransitivity; [|exact IH]. apply map_ext. intros k.
    cbn [flat_map]. rewrite <- !app_assoc.
    unfold pair_at. rewrite length_app, length_enc_pair.
    replace (Z.of_nat (length pre) + 8 * Z.of_nat (S k))
      with (Z.of_nat (length pre + 8) + 8 * Z.of_nat k) by lia.
    reflexivity.
Qed.

Lemma length_flat_enc hc pairs :
  length (flat_map (enc_pair hc) pairs) = (8 * length pairs)%nat.
Proof.
  induction pairs as [|e pairs IH]; [reflexivity|].
  cbn [flat_map length]. rewrite length_app, length_enc_pair, IH. lia.
Qed.

(** X16: a file laid out with the header at 0x80 decodes to what was
    put in.  For 0x80 bytes of MZ part, any twelve bytes of padding, any
    32-bit pairs and checksum, if the first "Rich" in the first [lfa_new]
    bytes is the one after the entries, then [decode] returns the mapping
    built from the pairs in order, and [checksum_matches] tells whether
    the stored checksum is the rotate-and-add sum of the MZ part and the
    pairs. *)
Theorem X16_decode_layout stub pad pairs hc rest :
  length stub = 0x80%nat ->
  length pad = 12%nat ->
  0 <= hc < 2 ^ 32 ->
  Forall word32 pairs ->
  let file := rich_layout stub pad pairs hc rest in
  bytes_find (firstn (Z.to_nat (lfa_of file)) file) Rich
  = 0x90 + 8 * Z.of_nat (length pairs) ->
  decode file
  = inr (mk_parser
           (fold_left od_insert (map item_of_pair pairs) [])
           (fold_left rol_entry_step pairs (rol_accumulate 0x80 stub) =? hc)).
Proof.
  intros Hstub Hpad Hhc HF file Hrich.
  set (n := length pairs) in *.
  set (D := Z.lxor DanS hc).
  assert (HD : 0 <= D < 2 ^ 32).
  { apply lxor_range32; [|assumption]. unfold DanS.
    change (2 ^ 32) with 4294967296. lia. }
  assert (Hlen : Z.of_nat (length file)
                 = 0x98 + 8 * Z.of_nat n + Z.of_nat (length rest)).
  { unfold file, rich_layout.
    rewrite !length_app, length_flat_enc, !length_le32, Hstub, Hpad.
    fold n. change (length Rich) with 4%nat. lia. }
  assert (E80 : dword_at file 0x80 = Some D).
  { unfold file, rich_layout.
    replace 0x80 with (Z.of_nat (length stub)) by (rewrite Hstub; reflexivity).
    apply dword_at_le32. assumption. }
  assert (Ehc : dword_at file (0x90 + 8 * Z.of_nat n + 4) = Some hc).
  { assert (Hs : file
                 = (stub ++ le32 D ++ pad ++ flat_map (enc_pair hc) pairs
                    ++ Rich) ++ le32 hc ++ rest)
      by (unfold file, rich_layout, D; rewrite <- !app_assoc; reflexivity).
    rewrite Hs.
    replace (0x90 + 8 * Z.of_nat n + 4)
      with (Z.of_nat (length (stub ++ le32 D ++ pad
                              ++ flat_map (enc_pair hc) pairs ++ Rich))).
    - apply dword_at_le32. assumption.
    - rewrite !length_app, length_flat_enc, !length_le32, Hstub, Hpad.
      fold n. change (length Rich) with 4%nat. lia. }
  assert (Hne : bytes_find (firstn (Z.to_nat (lfa_of file)) file) Rich <> -1)
    by lia.
  destruct (bytes_find_found _ _ Hne) as (_ & R2 & _).
  rewrite Hrich in R2. change (Z.of_nat (length Rich)) with 4 in R2.
  rewrite length_firstn in R2.
  assert (Hlfa : 0x80 <= lfa_of file) by lia.
  rewrite decode_eq.
  pose proof (locate_outcome file) as O. cbv zeta in O.
  rewrite Hrich in O.
  rewrite (word_at_Some _ _ _ Ehc) in O.
  assert (Hd : dans_at file hc 0x80 = true).
  { unfold dans_at. rewrite E80. unfold D. rewrite lxor_twice.
    apply Z.eqb_refl. }
  rewrite Hd in O.
  destruct (Z.ltb_spec (Z.of_nat (length file)) 0x40) as [L|_]; [lia|].
  destruct (Z.eqb_spec (0x90 + 8 * Z.of_nat n) (-1)) as [L|_]; [lia|].
  destruct (Z.ltb_spec (Z.of_nat (length file)) (0x90 + 8 * Z.of_nat n + 8))
    as [L|_]; [lia|].
  destruct (Z.ltb_spec (Z.of_nat (length file)) 0x84) as [L|_]; [lia|].
  rewrite O. clear O.
  set (h := mk_header _ _ _ _ _).
  assert (Hpairs : entry_pairs file h = pairs).
  { unfold entry_pairs, h.
    cbn [header_checksum start_of_header rich_location].
    replace ((0x90 + 8 * Z.of_nat n - 0x80 - 0x10) / 0x8) with (Z.of_nat n)
      by (replace (0x90 + 8 * Z.of_nat n - 0x80 - 0x10)
            with (Z.of_nat n * 8) by lia;
          rewrite Z.div_mul by lia; reflexivity).
    assert (Hs : file
                 = (stub ++ le32 D ++ pad) ++ flat_map (enc_pair hc) pairs
                   ++ Rich ++ le32 hc ++ rest)
      by (unfold file, rich_layout, D; rewrite <- !app_assoc; reflexivity).
    rewrite Hs.
    replace (0x80 + 0x10) with (Z.of_nat (length (stub ++ le32 D ++ pad)))
      by (rewrite !length_app, length_le32, Hstub, Hpad; reflexivity).
    apply pair_at_layout; assumption. }
  assert (Hbc : byte_loop (firstn (Z.to_nat (start_of_header h)) (data h))
                          (start_of_header h)
                = rol_accumulate 0x80 stub).
  { unfold h. cbn [start_of_header data]. rewrite byte_loop_rol.
    rewrite firstn_firstn.
    replace (Nat.min (Z.to_nat 0x80) (Z.to_nat (lfa_of file)))
      with (length stub) by (rewrite Hstub; lia).
    unfold file, rich_layout. rewrite firstn_app, Nat.sub_diag, firstn_all.
    cbn [firstn]. rewrite app_nil_r. reflexivity. }
  unfold locals_of. cbn [self_entries self_checksum_matches].
  rewrite Hpairs, Hbc, fold_entry_step_snd, fold_entry_step_fst.
  - reflexivity.
  - eapply Forall_impl; [|exact HF]. intros e [He _]. exact He.
Qed.

Lemma X16_witness :
  decode sample_file
  = inr (mk_parser
           (fold_left od_insert (map item_of_pair sample_pairs) [])
           (fold_left rol_entry_step sample_pairs
              (rol_accumulate 0x80 (mz_header 0xB0 ++ zeros 64))
            =? sample_checksum)).
Proof.
  refine (X16_decode_layout (mz_header 0xB0 ++ zeros 64)
            (le32 sample_checksum ++ le32 sample_checksum
             ++ le32 sample_checksum)
            sample_pairs sample_checksum [x50; x45; x00; x00] _ _ _ _ _).
  - reflexivity.
  - reflexivity.
  - vm_compute. split; [discriminate|reflexivity].
  - repeat constructor; vm_compute; discriminate || reflexivity.
  - vm_compute. reflexivity.
Defined.
